(** * PakWheels listing scraper: a shallow embedding and its properties

    The development follows [PakWheelCarDataScrapper.py].  Text is modelled
    by Rocq strings, an ASCII character by itself and any other by its UTF-8
    bytes; the case and whitespace classes are those of Python on ASCII text
    (characters above 127 are left alone by the case mappings and are never
    whitespace).  The network, the HTML parser and the JSON decoder are
    outside the program: their results are inputs of the model.  A run is
    observed through its trace of GET requests, sleeps and file writes; the
    console output is left out.

    The driver is given twice.  [main] is the driver in a quiet environment:
    every file is written whole and nothing but the scrape of a page lets an
    exception out.  [main_env] is the driver with what else can happen inside
    its [try]: a row that cannot be encoded stops a write, and the sleep at
    the end of an iteration can be interrupted.  The file system itself is
    taken to work. *)

From Stdlib Require Import ZArith QArith Ascii.
From stdpp Require Import base tactics list strings pretty.

Local Open Scope Z_scope.
Local Set Warnings "-register-all".
Set Default Proof Using "Type".

(** ** Python string primitives *)

Module Py.

(** [str.isspace] on one ASCII character: TAB, LF, VT, FF, CR, the four
    separators FS, GS, RS, US and the space. *)
Definition isspace (c : ascii) : bool :=
  let n := N_of_ascii c in
  ((9 <=? n) && (n <=? 13) || (28 <=? n) && (n <=? 32))%N.

Definition isupper (c : ascii) : bool :=
  let n := N_of_ascii c in ((65 <=? n) && (n <=? 90))%N.

Definition islower (c : ascii) : bool :=
  let n := N_of_ascii c in ((97 <=? n) && (n <=? 122))%N.

Definition lower_char (c : ascii) : ascii :=
  if isupper c then ascii_of_N (N_of_ascii c + 32) else c.

Definition upper_char (c : ascii) : ascii :=
  if islower c then ascii_of_N (N_of_ascii c - 32) else c.

(** [s.lower()]: the case mapping of the ASCII letters, which is all of
    [str.lower] on ASCII text; other characters are left as they are. *)
Fixpoint lower (s : string) : string :=
  match s with
  | EmptyString => EmptyString
  | String c s' => String (lower_char c) (lower s')
  end.

(** [s.isascii()] *)
Fixpoint isascii (s : string) : bool :=
  match s with
  | EmptyString => true
  | String c s' => (N_of_ascii c <? 128)%N && isascii s'
  end.

(** [s.upper()], used only to state case-insensitivity, on ASCII text. *)
Fixpoint upper (s : string) : string :=
  match s with
  | EmptyString => EmptyString
  | String c s' => String (upper_char c) (upper s')
  end.

(** [s.title()]: a cased character is upper-cased when the previous
    character is uncased and lower-cased when it is cased. *)
Fixpoint title_go (previous_is_cased : bool) (s : string) : string :=
  match s with
  | EmptyString => EmptyString
  | String c s' =>
      if islower c then
        String (if previous_is_cased then c else upper_char c) (title_go true s')
      else if isupper c then
        String (if previous_is_cased then lower_char c else c) (title_go true s')
      else String c (title_go false s')
  end.

Definition title (s : string) : string := title_go false s.

(** [s.lstrip()], [s.rstrip()], [s.strip()] *)
Fixpoint lstrip (s : string) : string :=
  match s with
  | EmptyString => EmptyString
  | String c s' => if isspace c then lstrip s' else s
  end.

Definition rstrip (s : string) : string := String.rev (lstrip (String.rev s)).

Definition strip (s : string) : string := rstrip (lstrip s).

(** [s.startswith(p)] *)
Fixpoint startswith (p s : string) : bool :=
  match p, s with
  | EmptyString, _ => true
  | String a p', String b s' => if decide (a = b) then startswith p' s' else false
  | String _ _, EmptyString => false
  end.

(** [p in s] *)
Fixpoint contains (p s : string) : bool :=
  startswith p s ||
  match s with
  | EmptyString => false
  | String _ s' => contains p s'
  end.

(** [s.split(sep)] for a non-empty separator: the leftmost occurrences,
    not overlapping.  [skip] counts the characters of a matched separator
    that are still to be passed over, [cur] holds the current part in
    reverse. *)
Fixpoint split_go (sep s : string) (skip : nat) (cur : string) : list string :=
  match s with
  | EmptyString => [String.rev cur]
  | String c s' =>
      match skip with
      | S k => split_go sep s' k cur
      | O =>
          if startswith sep s
          then String.rev cur :: split_go sep s' (String.length sep - 1) EmptyString
          else split_go sep s' 0 (String c cur)
      end
  end.

Definition split (sep s : string) : list string := split_go sep s 0 EmptyString.

End Py.

(** ** [extract_city_from_description] *)

Definition cities : list string :=
  [ "karachi"; "lahore"; "islamabad"; "rawalpindi";
    "faisalabad"; "multan"; "peshawar"; "quetta";
    "sialkot"; "gujranwala"; "hyderabad"; "bahawalpur" ].

(** The [for city in cities] loop, returning at the first hit. *)
Fixpoint first_city (cs : list string) (desc_lower : string) : string :=
  match cs with
  | [] => ""
  | city :: cs' =>
      if Py.contains city desc_lower then Py.title city else first_city cs' desc_lower
  end.

Definition extract_city_from_description (desc : string) : string :=
  let desc_lower := Py.lower desc in
  first_city cities desc_lower.

(** ** [parse_engine_specs] *)

Definition parse_engine_specs (engine_text : string) : string * string * string :=
  let parts := Py.strip <$> Py.split " . " engine_text in
  let fuel_type := "" in
  let engine_capacity := "" in
  let transmission := "" in
  let fuel_type := if decide (1 ≤ length parts)%nat then default "" (parts !! 0%nat) else fuel_type in
  let engine_capacity :=
    if decide (2 ≤ length parts)%nat then default "" (parts !! 1%nat) else engine_capacity in
  let transmission :=
    if decide (3 ≤ length parts)%nat then default "" (parts !! 2%nat) else transmission in
  (fuel_type, engine_capacity, transmission).


(** ** Values decoded from JSON *)

(** A Python float is observed by the program only through [str(x)],
    [format(x, ",")] and its truth value; the model carries these three
    observations instead of an IEEE number. *)
Record pyfloat := PyFloat {
  float_str : string;
  float_grouped : string;
  float_truth : bool
}.

(** What [json.loads] can return.  A dict is kept as its items, in insertion
    order, with distinct keys. *)
Inductive value :=
| VNone
| VBool (b : bool)
| VInt (n : Z)
| VFloat (x : pyfloat)
| VStr (s : string)
| VList (xs : list value)
| VDict (items : list (string * value)).

Module Fmt.

Fixpoint join (sep : string) (l : list string) : string :=
  match l with
  | [] => ""
  | [x] => x
  | x :: l' => x +:+ sep +:+ join sep l'
  end.

(** Digit grouping of [format(n, ",")], on the reversed digits: [i] counts
    the digits already placed in the current group. *)
Fixpoint group_rev (ds : string) (i : nat) : string :=
  match ds with
  | EmptyString => EmptyString
  | String d ds' =>
      match i with
      | 3%nat => String "," (String d (group_rev ds' 1))
      | _ => String d (group_rev ds' (S i))
      end
  end.

Definition group_digits (digits : string) : string :=
  String.rev (group_rev (String.rev digits) 0).

(** [format(n, ",")] for an int *)
Definition int_grouped (n : Z) : string :=
  match n with
  | Zneg p => "-" +:+ group_digits (pretty (Zpos p))
  | _ => group_digits (pretty n)
  end.

Definition hexdigit (n : N) : ascii :=
  if (n <? 10)%N then ascii_of_N (48 + n) else ascii_of_N (87 + n).

(** One character of [repr] of a str, for the chosen quote. *)
Definition repr_char (quote c : ascii) : string :=
  let n := N_of_ascii c in
  if decide (c = quote) then String "\" (String c "")
  else if decide (c = "\"%char) then "\\"
  else if decide (n = 9%N) then "\t"
  else if decide (n = 10%N) then "\n"
  else if decide (n = 13%N) then "\r"
  else if ((n <? 32) || (n =? 127))%N
    then String "\" (String "x" (String (hexdigit (n / 16)) (String (hexdigit (n mod 16)) "")))
  else String c "".

Fixpoint repr_chars (quote : ascii) (s : string) : string :=
  match s with
  | EmptyString => EmptyString
  | String c s' => repr_char quote c +:+ repr_chars quote s'
  end.

Definition has_char (c : ascii) (s : string) : bool := Py.contains (String c "") s.

(** The double quote character. *)
Definition dquote : ascii := ascii_of_N 34.

(** [repr(s)] for a str: single quotes unless the text has a single and no
    double quote. *)
Definition repr_str (s : string) : string :=
  let quote : ascii :=
    if has_char "'" s && negb (has_char dquote s) then dquote else "'"%char in
  String quote (repr_chars quote s) +:+ String quote "".

Definition str_bool (b : bool) : string := if b then "True" else "False".

(** [repr(v)] *)
Fixpoint repr (v : value) : string :=
  match v with
  | VNone => "None"
  | VBool b => str_bool b
  | VInt n => pretty n
  | VFloat x => float_str x
  | VStr s => repr_str s
  | VList xs => "[" +:+ join ", " (map repr xs) +:+ "]"
  | VDict items =>
      "{" +:+ join ", " (map (fun kv => repr_str (fst kv) +:+ ": " +:+ repr (snd kv)) items) +:+ "}"
  end.

(** [str(v)], which is also [format(v, "")] for these types *)
Definition str (v : value) : string :=
  match v with
  | VStr s => s
  | _ => repr v
  end.

(** [format(v, ",")] where [v] is an int, a bool or a float *)
Definition grouped (v : value) : string :=
  match v with
  | VInt n => int_grouped n
  | VBool b => int_grouped (if b then 1 else 0)
  | VFloat x => float_grouped x
  | _ => ""
  end.

End Fmt.

(** [bool(v)] *)
Definition truthy (v : value) : bool :=
  match v with
  | VNone => false
  | VBool b => b
  | VInt n => negb (n =? 0)
  | VFloat x => float_truth x
  | VStr s => negb (bool_decide (s = ""))
  | VList xs => negb (bool_decide (xs = []))
  | VDict items => match items with [] => false | _ => true end
  end.

(** [isinstance(v, (int, float))]; a Python bool is an int. *)
Definition is_int_or_float (v : value) : bool :=
  match v with
  | VInt _ | VFloat _ | VBool _ => true
  | _ => false
  end.

(** ** Exceptions *)

Inductive exn := AttributeError.

Inductive exc (A : Type) :=
| Ok (a : A)
| Raise (e : exn).
Arguments Ok {A} a.
Arguments Raise {A} e.

Global Instance exc_ret : MRet exc := fun A a => Ok a.

Global Instance exc_bind : MBind exc := fun A B k m =>
  match m with
  | Ok a => k a
  | Raise e => Raise e
  end.

Fixpoint lookup_key (k : string) (items : list (string * value)) : option value :=
  match items with
  | [] => None
  | (k', v) :: rest => if decide (k = k') then Some v else lookup_key k rest
  end.

(** [obj.get(key, dflt)]: only a dict has the method. *)
Definition get (obj : value) (key : string) (dflt : value) : exc value :=
  match obj with
  | VDict items => Ok (default dflt (lookup_key key items))
  | _ => Raise AttributeError
  end.

(** [obj.strip()]: only a str has the method. *)
Definition strip (obj : value) : exc string :=
  match obj with
  | VStr s => Ok (Py.strip s)
  | _ => Raise AttributeError
  end.

(** ** The parsed page *)

(** The first [<i>] of a spec item, with its [class] attribute. *)
Record icon_tag := { class_attr : option (list string) }.

(** One [<li>] of [ul.ad-specs]: its icon and [get_text(strip=True)]. *)
Record spec_li := { icon : option icon_tag; text : string }.

(** The [application/ld+json] script and its [.string]. *)
Record script_tag := { script_string : option string }.

(** One [li.classified-listing]. *)
Record listing := {
  ld_json : option script_tag;
  ad_specs : option (list spec_li)
}.

(** ** Records *)

Record car := {
  title : string;
  price : string;
  city : string;
  year : value;
  mileage : string;
  color : string;
  registered_in : string;
  fuel_type : string;
  engine_capacity : string;
  transmission : string;
  link : value
}.

(** The six fields filled from the spec list. *)
Record specs := {
  s_mileage : string;
  s_color : string;
  s_registered_in : string;
  s_fuel_type : string;
  s_engine_capacity : string;
  s_transmission : string
}.

Definition no_specs : specs :=
  {| s_mileage := ""; s_color := ""; s_registered_in := "";
     s_fuel_type := ""; s_engine_capacity := ""; s_transmission := "" |}.

(** [any(token in c for c in classes)] *)
Definition any_class (token : string) (classes : list string) : bool :=
  existsb (Py.contains token) classes.

Definition classes_of (spec : spec_li) : list string :=
  match icon spec with
  | Some i => default [] (class_attr i)
  | None => []
  end.

(** The body of [for spec_li in specs_ul.find_all("li")]. *)
Definition spec_step (acc : specs) (spec : spec_li) : specs :=
  let classes := classes_of spec in
  let text := text spec in
  if any_class "pw-mileage" classes then
    {| s_mileage := text; s_color := s_color acc; s_registered_in := s_registered_in acc;
       s_fuel_type := s_fuel_type acc; s_engine_capacity := s_engine_capacity acc;
       s_transmission := s_transmission acc |}
  else if any_class "pw-color" classes then
    {| s_mileage := s_mileage acc; s_color := text; s_registered_in := s_registered_in acc;
       s_fuel_type := s_fuel_type acc; s_engine_capacity := s_engine_capacity acc;
       s_transmission := s_transmission acc |}
  else if any_class "pw-registration" classes then
    {| s_mileage := s_mileage acc; s_color := s_color acc; s_registered_in := text;
       s_fuel_type := s_fuel_type acc; s_engine_capacity := s_engine_capacity acc;
       s_transmission := s_transmission acc |}
  else if any_class "pw-engine" classes then
    let '(fuel_type, engine_capacity, transmission) := parse_engine_specs text in
    {| s_mileage := s_mileage acc; s_color := s_color acc; s_registered_in := s_registered_in acc;
       s_fuel_type := fuel_type; s_engine_capacity := engine_capacity;
       s_transmission := transmission |}
  else acc.

Definition read_specs (specs_ul : option (list spec_li)) : specs :=
  match specs_ul with
  | Some items => fold_left spec_step items no_specs
  | None => no_specs
  end.

(** ** Effects *)

(** What a run does to the outside world, in order: the GET requests with
    their timeout, the sleeps in seconds, and the files written with their
    rows (the header first). *)
Inductive event :=
| EvGet (page : Z) (timeout : Z)
| EvSleep (seconds : Q)
| EvSave (filename : string) (rows : list (list string)).

(** An exception that leaves [scrape_page]: [KeyboardInterrupt], which is not
    an [Exception], or an exception raised while a handler is running. *)
Inductive signal := KeyboardInterrupt | OtherException.

(** One [session.get] followed by [raise_for_status] and the selection of
    the listing nodes. *)
Inductive http_outcome :=
| Response (body : list listing)
| RaisesTimeout
| RaisesRequestException
| RaisesException
| Uncaught (sig : signal).

Inductive call_result :=
| Returns (cars : list car)
| Raised (sig : signal).

Definition MAX_RETRIES : Z := 5.
Definition BASE_DELAY : Z := 2.
Definition SAVE_INTERVAL : Z := 20.
Definition MAX_PAGES : Z := 2000.

(** ** [save_to_csv] *)

Definition fieldnames : list string :=
  [ "title"; "price"; "city"; "year"; "mileage"; "color"; "registered_in";
    "fuel_type"; "engine_capacity"; "transmission"; "link" ].

(** The csv writer leaves a str as it is, writes [None] as the empty string
    and anything else through [str]. *)
Definition csv_cell (v : value) : string :=
  match v with
  | VNone => ""
  | _ => Fmt.str v
  end.

Definition csv_row (c : car) : list string :=
  [ title c; price c; city c; csv_cell (year c); mileage c; color c;
    registered_in c; fuel_type c; engine_capacity c; transmission c;
    csv_cell (link c) ].

Definition save_to_csv (cars : list car) (filename : string) : list event :=
  [EvSave filename (fieldnames :: (csv_row <$> cars))].

Definition backup_file (page : Z) : string :=
  "pakwheels_cars_backup_page" +:+ pretty page +:+ ".csv".

Definition final_file : string := "pakwheels_cars_final.csv".

(** The driver's state. *)
Record state := {
  page : Z;
  consecutive_empty : Z;
  all_cars : list car
}.

(** The same without the counter. *)
Record state_nc := {
  nc_page : Z;
  nc_all_cars : list car
}.

Inductive status := RUNNING | INTERRUPTED | ERRORED | DONE.

Definition status_of (sig : signal) : status :=
  match sig with
  | KeyboardInterrupt => INTERRUPTED
  | OtherException => ERRORED
  end.

Section Scraper.

(** [json.loads]: [None] when it raises. *)
Variable json_loads : string -> option value.

(** The body of [for li in soup.select(...)], up to [cars.append]: [None]
    is a [continue]. *)
Definition extract_listing (li : listing) : exc (option car) :=
  match ld_json li with
  | None => Ok None
  | Some script_tag =>
      match script_string script_tag with
      | None => Ok None
      | Some s =>
          if decide (s = "") then Ok None
          else
            match json_loads s with
            | None => Ok None
            | Some data =>
                name ← get data "name" (VStr "");
                title ← strip name;
                description ← get data "description" (VStr "");
                desc ← strip description;
                year ← get data "modelDate" (VStr "");
                found ← get data "offers" (VDict []);
                let offers := if truthy found then found else VDict [] in
                price ← get offers "price" (VStr "");
                currency ← get offers "priceCurrency" (VStr "PKR");
                link ← get offers "url" (VStr "");
                let city := extract_city_from_description desc in
                let year := if is_int_or_float year then VStr (Fmt.str year) else year in
                let price_str :=
                  if is_int_or_float price
                  then Fmt.str currency +:+ " " +:+ Fmt.grouped price
                  else Fmt.str price in
                let found_specs := read_specs (ad_specs li) in
                Ok (Some {| title := title; price := price_str; city := city;
                            year := year;
                            mileage := s_mileage found_specs;
                            color := s_color found_specs;
                            registered_in := s_registered_in found_specs;
                            fuel_type := s_fuel_type found_specs;
                            engine_capacity := s_engine_capacity found_specs;
                            transmission := s_transmission found_specs;
                            link := link |})
            end
      end
  end.

(** The loop over the listing nodes, [cars] being the list built so far. *)
Fixpoint extract_from (lis : list listing) (cars : list car) : exc (list car) :=
  match lis with
  | [] => Ok cars
  | li :: rest =>
      r ← extract_listing li;
      extract_from rest (match r with Some c => cars ++ [c] | None => cars end)
  end.

Definition extract (body : list listing) : exc (list car) := extract_from body [].

(** What the [try] block returns on a response: an exception of the
    extraction is caught by [except Exception]. *)
Definition cars_of_response (body : list listing) : list car :=
  match extract body with
  | Ok cars => cars
  | Raise _ => []
  end.

(** [session.get] for a page at an attempt. *)
Variable session_get : Z -> Z -> http_outcome.

(** [for attempt in range(MAX_RETRIES)], from [attempt] on, with
    [remaining] attempts left in the range. *)
Fixpoint attempts_from (page : Z) (remaining : nat) (attempt : Z)
  : list event * call_result :=
  match remaining with
  | O => ([], Returns [])
  | S remaining' =>
      let timeout := 20 + attempt * 10 in
      match session_get page attempt with
      | Response body => ([EvGet page timeout], Returns (cars_of_response body))
      | RaisesTimeout =>
          let wait_time := BASE_DELAY * 2 ^ attempt in
          if attempt <? MAX_RETRIES - 1 then
            let '(evs, r) := attempts_from page remaining' (attempt + 1) in
            (EvGet page timeout :: EvSleep (inject_Z wait_time) :: evs, r)
          else ([EvGet page timeout], Returns [])
      | RaisesRequestException =>
          let wait_time := BASE_DELAY * 2 ^ attempt in
          if attempt <? MAX_RETRIES - 1 then
            let '(evs, r) := attempts_from page remaining' (attempt + 1) in
            (EvGet page timeout :: EvSleep (inject_Z wait_time) :: evs, r)
          else ([EvGet page timeout], Returns [])
      | RaisesException => ([EvGet page timeout], Returns [])
      | Uncaught sig => ([EvGet page timeout], Raised sig)
      end
  end.

Definition scrape_page (page : Z) : list event * call_result :=
  attempts_from page (Z.to_nat MAX_RETRIES) 0.

(** The [while page <= MAX_PAGES] loop of [main], for at most [fuel]
    evaluations of its condition; [RUNNING] is returned when they are used
    up. *)
Fixpoint while_loop (fuel : nat) (st : state) : list event * (status * state) :=
  match fuel with
  | O => ([], (RUNNING, st))
  | S fuel' =>
      if page st <=? MAX_PAGES then
        let '(fetched, r) := scrape_page (page st) in
        match r with
        | Raised sig => (fetched, (status_of sig, st))
        | Returns cars =>
            match cars with
            | [] =>
                let st' := {| page := page st + 1;
                              consecutive_empty := consecutive_empty st + 1;
                              all_cars := all_cars st |} in
                let '(evs, final) := while_loop fuel' st' in
                (fetched ++ EvSleep (inject_Z 2) :: evs, final)
            | _ =>
                let all := all_cars st ++ cars in
                let saved :=
                  if page st mod SAVE_INTERVAL =? 0
                  then save_to_csv all (backup_file (page st)) else [] in
                let st' := {| page := page st + 1;
                              consecutive_empty := 0;
                              all_cars := all |} in
                let '(evs, final) := while_loop fuel' st' in
                (fetched ++ saved ++ EvSleep (3 # 2) :: evs, final)
            end
        end
      else ([], (DONE, st))
  end.

(** The [finally] block. *)
Definition finalize (cars : list car) : list event :=
  match cars with
  | [] => []
  | _ => save_to_csv cars final_file
  end.

Definition initial : state :=
  {| page := 1; consecutive_empty := 0; all_cars := [] |}.

(** One condition check more than there are pages. *)
Definition main_fuel : nat := S (Z.to_nat MAX_PAGES).

Definition main : list event * (status * state) :=
  let '(evs, (final_status, st)) := while_loop main_fuel initial in
  (evs ++ finalize (all_cars st), (final_status, st)).

(** The driver with [consecutive_empty] taken out. *)
Fixpoint while_loop_nc (fuel : nat) (st : state_nc) : list event * (status * state_nc) :=
  match fuel with
  | O => ([], (RUNNING, st))
  | S fuel' =>
      if nc_page st <=? MAX_PAGES then
        let '(fetched, r) := scrape_page (nc_page st) in
        match r with
        | Raised sig => (fetched, (status_of sig, st))
        | Returns cars =>
            match cars with
            | [] =>
                let st' := {| nc_page := nc_page st + 1; nc_all_cars := nc_all_cars st |} in
                let '(evs, final) := while_loop_nc fuel' st' in
                (fetched ++ EvSleep (inject_Z 2) :: evs, final)
            | _ =>
                let all := nc_all_cars st ++ cars in
                let saved :=
                  if nc_page st mod SAVE_INTERVAL =? 0
                  then save_to_csv all (backup_file (nc_page st)) else [] in
                let st' := {| nc_page := nc_page st + 1; nc_all_cars := all |} in
                let '(evs, final) := while_loop_nc fuel' st' in
                (fetched ++ saved ++ EvSleep (3 # 2) :: evs, final)
            end
        end
      else ([], (DONE, st))
  end.

Definition main_nc : list event * (status * state_nc) :=
  let '(evs, (final_status, st)) :=
    while_loop_nc main_fuel {| nc_page := 1; nc_all_cars := [] |} in
  (evs ++ finalize (nc_all_cars st), (final_status, st)).


(** ** The driver in its environment *)

(** A surrogate code point, which a Python string can hold ([json.loads]
    accepts the escape for one) and UTF-8 cannot, stands for the three bytes
    its number would give: ED, then a byte from A0 to BF, then one more.  No
    encodable text has ED followed by such a byte. *)
Fixpoint has_surrogate (s : string) : bool :=
  match s with
  | String a (String b _ as rest) =>
      ((N_of_ascii a =? 237) && (160 <=? N_of_ascii b) && (N_of_ascii b <=? 191))%N
      || has_surrogate rest
  | _ => false
  end.

(** [s.encode("utf-8")] does not raise. *)
Definition utf8_encodable (s : string) : bool := negb (has_surrogate s).

Definition row_encodable (row : list string) : bool := forallb utf8_encodable row.

(** [writer.writerows] on a file opened with [encoding="utf-8"]: the rows
    are written one by one, and the first that cannot be encoded raises
    [UnicodeEncodeError] with nothing of it written.  The result is the rows
    written and whether the error is raised. *)
Fixpoint writerows (rows : list (list string)) : list (list string) * bool :=
  match rows with
  | [] => ([], false)
  | row :: rest =>
      if row_encodable row then
        let '(written, failed) := writerows rest in (row :: written, failed)
      else ([], true)
  end.

(** [save_to_csv] with the encoding of its file: the file is opened, the
    header is written, then the rows as far as they go; the [with] block
    closes the file with what was written.  The flag tells whether the call
    raises. *)
Definition save_to_csv_utf8 (cars : list car) (filename : string) : list event * bool :=
  let '(written, failed) := writerows (csv_row <$> cars) in
  ([EvSave filename (fieldnames :: written)], failed).

(** The exceptions as [main] tells them apart: [KeyboardInterrupt], an
    [Exception], and any other [BaseException] such as [SystemExit], which
    neither [except] clause catches. *)
Inductive exception_kind := IsKeyboardInterrupt | IsException | IsSystemExit.

Definition kind_of_signal (sig : signal) : exception_kind :=
  match sig with
  | KeyboardInterrupt => IsKeyboardInterrupt
  | OtherException => IsException
  end.

(** The call of the loop body that raised. *)
Inductive origin := FromScrape | FromSave | FromSleep.

(** How the [while] loop is left. *)
Inductive loop_end :=
| StillRunning
| LoopDone
| LoopRaised (o : origin) (e : exception_kind).

(** [time.sleep] at the end of the iteration for a page: what it raises, if
    anything (Ctrl-C while the driver sleeps, say). *)
Variable sleep_raises : Z -> option exception_kind.

(** One run of the loop body of [main]: its trace, the exception that leaves
    it with the call it comes from, and the state it leaves behind. *)
Definition loop_body (st : state)
  : list event * (option (origin * exception_kind) * state) :=
  let '(fetched, r) := scrape_page (page st) in
  match r with
  | Raised sig => (fetched, (Some (FromScrape, kind_of_signal sig), st))
  | Returns cars =>
      match cars with
      | [] =>
          let st' := {| page := page st + 1;
                        consecutive_empty := consecutive_empty st + 1;
                        all_cars := all_cars st |} in
          (fetched ++ [EvSleep (inject_Z 2)],
           (pair FromSleep <$> sleep_raises (page st), st'))
      | _ =>
          let all := all_cars st ++ cars in
          let '(saved, failed) :=
            if page st mod SAVE_INTERVAL =? 0
            then save_to_csv_utf8 all (backup_file (page st)) else ([], false) in
          if failed then
            (fetched ++ saved,
             (Some (FromSave, IsException),
              {| page := page st; consecutive_empty := 0; all_cars := all |}))
          else
            (fetched ++ saved ++ [EvSleep (3 # 2)],
             (pair FromSleep <$> sleep_raises (page st),
              {| page := page st + 1; consecutive_empty := 0; all_cars := all |}))
      end
  end.

(** The [while page <= MAX_PAGES] loop, for at most [fuel] evaluations of
    its condition. *)
Fixpoint while_loop_env (fuel : nat) (st : state) : list event * (loop_end * state) :=
  match fuel with
  | O => ([], (StillRunning, st))
  | S fuel' =>
      if page st <=? MAX_PAGES then
        let '(evs, (raised, st')) := loop_body st in
        match raised with
        | Some (o, e) => (evs, (LoopRaised o e, st'))
        | None =>
            let '(evs', final) := while_loop_env fuel' st' in
            (evs ++ evs', final)
        end
      else ([], (LoopDone, st))
  end.

(** The [finally] block: the flag tells whether the final write raises. *)
Definition finalize_env (cars : list car) : list event * bool :=
  match cars with
  | [] => ([], false)
  | _ => save_to_csv_utf8 cars final_file
  end.

(** What the [try] statement makes of the way the loop was left: the
    exception that is still on its way out when neither [except] clause
    catches it ([except KeyboardInterrupt] and [except Exception] only
    print). *)
Definition passing (e : loop_end) : option exception_kind :=
  match e with
  | LoopRaised _ IsSystemExit => Some IsSystemExit
  | _ => None
  end.

(** A run of [main]: its trace, how the loop was left, the state at the end
    and the exception that leaves [main], if any. *)
Record run := {
  run_trace : list event;
  run_end : loop_end;
  run_state : state;
  run_leaves : option exception_kind
}.

Definition main_env : run :=
  let '(evs, (e, st)) := while_loop_env main_fuel initial in
  let '(final_evs, failed) := finalize_env (all_cars st) in
  {| run_trace := evs ++ final_evs;
     run_end := e;
     run_state := st;
     run_leaves := if failed then Some IsException else passing e |}.

(** ** Notions used in the statements *)

(** [p] occurs in [s]. *)
Definition substring_of (p s : string) : Prop := ∃ a b, s = a +:+ p +:+ b.

(** The structured-data block of a listing is absent (no script, or a
    script without text) or malformed ([json.loads] raises). *)
Definition no_structured_data (li : listing) : Prop :=
  ld_json li = None
  ∨ ∃ tag, ld_json li = Some tag
      ∧ (script_string tag = None
         ∨ script_string tag = Some ""
         ∨ ∃ s, script_string tag = Some s ∧ json_loads s = None).

(** The kinds of spec item, and the one an item falls under: the first of
    the four tests of the loop body that holds. *)
Inductive kind := Mileage | Color | Registration | Engine.

Definition classify (spec : spec_li) : option kind :=
  let classes := classes_of spec in
  if any_class "pw-mileage" classes then Some Mileage
  else if any_class "pw-color" classes then Some Color
  else if any_class "pw-registration" classes then Some Registration
  else if any_class "pw-engine" classes then Some Engine
  else None.

(** The fields of a kind hold what the loop body takes from the text [t]. *)
Definition specs_hold (k : kind) (sp : specs) (t : string) : Prop :=
  match k with
  | Mileage => s_mileage sp = t
  | Color => s_color sp = t
  | Registration => s_registered_in sp = t
  | Engine => (s_fuel_type sp, s_engine_capacity sp, s_transmission sp) = parse_engine_specs t
  end.

Definition car_holds (k : kind) (c : car) (t : string) : Prop :=
  match k with
  | Mileage => mileage c = t
  | Color => color c = t
  | Registration => registered_in c = t
  | Engine => (fuel_type c, engine_capacity c, transmission c) = parse_engine_specs t
  end.

(** The offer object that the price, the currency and the link are read
    from: the value under "offers" if it is truthy, an empty dict if not. *)
Definition offers_of (items : list (string * value)) : value :=
  let found := default (VDict []) (lookup_key "offers" items) in
  if truthy found then found else VDict [].


(** An attempt fails with a timeout or a transport-level error. *)
Definition retryable (o : http_outcome) : Prop :=
  o = RaisesTimeout ∨ o = RaisesRequestException.

(** The number of GET requests and the sleeps of a trace. *)
Fixpoint attempts_made (evs : list event) : nat :=
  match evs with
  | [] => 0
  | EvGet _ _ :: evs' => S (attempts_made evs')
  | _ :: evs' => attempts_made evs'
  end.

Fixpoint waits (evs : list event) : list Q :=
  match evs with
  | [] => []
  | EvSleep d :: evs' => d :: waits evs'
  | _ :: evs' => waits evs'
  end.

(** The trace of five attempts at a page, four of them followed by a
    wait. *)
Definition five_attempts (page : Z) : list event :=
  [ EvGet page 20; EvSleep (inject_Z (2 * 2 ^ 0));
    EvGet page 30; EvSleep (inject_Z (2 * 2 ^ 1));
    EvGet page 40; EvSleep (inject_Z (2 * 2 ^ 2));
    EvGet page 50; EvSleep (inject_Z (2 * 2 ^ 3));
    EvGet page 60 ].

(** ** Sample inputs *)

Definition corolla_data : value :=
  VDict [ ("name", VStr " Toyota Corolla 2015 ");
          ("description", VStr "Used Toyota Corolla for sale in LAHORE");
          ("modelDate", VInt 2015);
          ("offers", VDict [ ("price", VInt 1250000);
                             ("url", VStr "https://www.pakwheels.com/used-cars/1") ]) ].

(** A block whose price is the JSON literal [true], and one that is a JSON
    array. *)
Definition token_data : value :=
  VDict [ ("name", VStr "Token"); ("offers", VDict [ ("price", VBool true) ]) ].

Definition sample_loads (s : string) : option value :=
  if decide (s = "corolla") then Some corolla_data
  else if decide (s = "token") then Some token_data
  else if decide (s = "[]") then Some (VList [])
  else None.

Definition mileage_icon : option icon_tag :=
  Some {| class_attr := Some ["pw"; "pw-mileage"] |}.

Definition engine_icon : option icon_tag :=
  Some {| class_attr := Some ["pw"; "pw-engine"] |}.

Definition sample_specs : list spec_li :=
  [ {| icon := mileage_icon; text := "90,000 km" |};
    {| icon := engine_icon; text := "Petrol . 1300 cc . Automatic" |};
    {| icon := mileage_icon; text := "85,000 km" |} ].

Definition corolla_listing : listing :=
  {| ld_json := Some {| script_string := Some "corolla" |};
     ad_specs := Some sample_specs |}.

Definition broken_listing : listing :=
  {| ld_json := Some {| script_string := Some "{oops" |}; ad_specs := None |}.

Definition corolla : car :=
  {| title := "Toyota Corolla 2015"; price := "PKR 1,250,000"; city := "Lahore";
     year := VStr "2015"; mileage := "85,000 km"; color := ""; registered_in := "";
     fuel_type := "Petrol"; engine_capacity := "1300 cc"; transmission := "Automatic";
     link := VStr "https://www.pakwheels.com/used-cars/1" |}.

Definition token_listing : listing :=
  {| ld_json := Some {| script_string := Some "token" |}; ad_specs := None |}.

Definition array_listing : listing :=
  {| ld_json := Some {| script_string := Some "[]" |}; ad_specs := None |}.

Definition sample_body : list listing := [broken_listing; corolla_listing].

(** Four timeouts, then a response. *)
Definition flaky_get (page attempt : Z) : http_outcome :=
  if attempt <? 4 then RaisesTimeout else Response sample_body.

Definition dead_get (page attempt : Z) : http_outcome := RaisesRequestException.

Definition steady_get (page attempt : Z) : http_outcome := Response sample_body.

(** Every page is served and lists nothing. *)
Definition empty_get (page attempt : Z) : http_outcome := Response [].

(** The sleep at the end of an iteration of the driver whose page returned
    [cars]. *)
Definition page_sleep (cars : list car) : Q :=
  match cars with
  | [] => inject_Z 2
  | _ => (3 # 2)%Q
  end.

(** The records that the scrape of a page returns ([[]] when it raises). *)
Definition returned (page : Z) : list car :=
  match snd (scrape_page page) with
  | Returns cars => cars
  | Raised _ => []
  end.

(** The state after an iteration that got [cars], and the checkpoint the
    iteration writes. *)
Definition next_state (st : state) (cars : list car) : state :=
  match cars with
  | [] => {| page := page st + 1;
             consecutive_empty := consecutive_empty st + 1;
             all_cars := all_cars st |}
  | _ => {| page := page st + 1; consecutive_empty := 0; all_cars := all_cars st ++ cars |}
  end.

Definition checkpoint (st : state) (cars : list car) : list event :=
  match cars with
  | [] => []
  | _ => if page st mod SAVE_INTERVAL =? 0
         then save_to_csv (all_cars st ++ cars) (backup_file (page st)) else []
  end.

(** The files written in a trace, in order, and the contents written to one
    file. *)
Fixpoint saves (evs : list event) : list (string * list (list string)) :=
  match evs with
  | [] => []
  | EvSave name rows :: evs' => (name, rows) :: saves evs'
  | _ :: evs' => saves evs'
  end.

Definition written_to (name : string) (evs : list event) : list (list (list string)) :=
  snd <$> filter (λ w, fst w = name) (saves evs).

(** The driver's state without the counter. *)
Definition forget (st : state) : state_nc :=
  {| nc_page := page st; nc_all_cars := all_cars st |}.

Definition with_counter (k : Z) (st : state) : state :=
  {| page := page st; consecutive_empty := k; all_cars := all_cars st |}.

(** A response for the first two pages, then Ctrl-C: the run is
    interrupted with two records collected. *)
Definition interrupted_get (page attempt : Z) : http_outcome :=
  if page <? 3 then Response sample_body else Uncaught KeyboardInterrupt.

(** An exception leaves the scrape of the first page: the run is errored
    with nothing collected. *)
Definition failing_get (page attempt : Z) : http_outcome := Uncaught OtherException.

(** The trace of [k] failed attempts, each followed by its wait, and of one
    more GET, starting at [attempt]. *)
Fixpoint retries_then_get (page : Z) (k : nat) (attempt : Z) : list event :=
  match k with
  | O => [EvGet page (20 + attempt * 10)]
  | S k' =>
      EvGet page (20 + attempt * 10) :: EvSleep (inject_Z (2 * 2 ^ attempt)) ::
        retries_then_get page k' (attempt + 1)
  end.

(** What [scrape_page] returns on the outcome of its last attempt. *)
Definition result_of (o : http_outcome) : call_result :=
  match o with
  | Response body => Returns (cars_of_response body)
  | Uncaught sig => Raised sig
  | _ => Returns []
  end.

(** The seconds slept in a trace. *)
Fixpoint total_wait (evs : list event) : Q :=
  match evs with
  | [] => 0
  | EvSleep d :: evs' => d + total_wait evs'
  | _ :: evs' => total_wait evs'
  end.

(** An event of the scrape of [page]: a GET of that page with a timeout
    from 20 to 60, or a wait from 2 to 16 seconds. *)
Definition scrape_event (page : Z) (ev : event) : Prop :=
  match ev with
  | EvGet p timeout => p = page ∧ 20 ≤ timeout ≤ 60
  | EvSleep d => (inject_Z 2 <= d)%Q ∧ (d <= inject_Z 16)%Q
  | EvSave _ _ => False
  end.

Definition is_str (v : value) : bool :=
  match v with VStr _ => true | _ => false end.

Definition is_dict (v : value) : bool :=
  match v with VDict _ => true | _ => false end.

(** The shape of a decoded block that the extraction gets through: an object
    whose name and description, when present, are strings and whose offers,
    when present and truthy, are an object. *)
Definition well_shaped (data : value) : bool :=
  match data with
  | VDict items =>
      is_str (default (VStr "") (lookup_key "name" items))
      && is_str (default (VStr "") (lookup_key "description" items))
      && is_dict (offers_of items)
  | _ => false
  end.

Global Instance kind_eq_dec : EqDecision kind.
Proof. solve_decision. Defined.

(** The fields of a kind. *)
Definition specs_fields (k : kind) (sp : specs) : list string :=
  match k with
  | Mileage => [s_mileage sp]
  | Color => [s_color sp]
  | Registration => [s_registered_in sp]
  | Engine => [s_fuel_type sp; s_engine_capacity sp; s_transmission sp]
  end.

Definition car_fields (k : kind) (c : car) : list string :=
  match k with
  | Mileage => [mileage c]
  | Color => [color c]
  | Registration => [registered_in c]
  | Engine => [fuel_type c; engine_capacity c; transmission c]
  end.

(** The text starts with whitespace, or ends with it. *)
Definition starts_with_space (s : string) : bool :=
  match s with
  | EmptyString => false
  | String c _ => Py.isspace c
  end.

Definition outer_space (s : string) : bool :=
  starts_with_space s || starts_with_space (String.rev s).

(** The text without its commas. *)
Fixpoint without_commas (s : string) : string :=
  match s with
  | EmptyString => EmptyString
  | String c s' => if decide (c = ","%char) then without_commas s' else String c (without_commas s')
  end.

(** The collection after the pages from [page st] to [p], starting from the
    one of [st]. *)
Definition collected_through (st : state) (p : Z) : list car :=
  all_cars st ++ concat (returned <$> seqZ (page st) (p - page st + 1)).

(** The file that [save_to_csv] writes for a collection. *)
Definition csv_of (cars : list car) : list (list string) :=
  fieldnames :: (csv_row <$> cars).

(** The pages of the GET requests of a trace. *)
Fixpoint pages_fetched (evs : list event) : list Z :=
  match evs with
  | [] => []
  | EvGet p _ :: evs' => p :: pages_fetched evs'
  | _ :: evs' => pages_fetched evs'
  end.

(** A response whose second listing carries a block that is an array. *)
Definition mixed_get (page attempt : Z) : http_outcome :=
  Response [corolla_listing; array_listing].


(** ** Notions on the driver in its environment *)

(** The checkpoint of an iteration that got [cars], as far as it can be
    written. *)
Definition checkpoint_env (st : state) (cars : list car) : list event * bool :=
  match cars with
  | [] => ([], false)
  | _ => if page st mod SAVE_INTERVAL =? 0
         then save_to_csv_utf8 (all_cars st ++ cars) (backup_file (page st))
         else ([], false)
  end.

(** The state when the checkpoint of the iteration raises: the records are
    in the collection, the page is not counted. *)
Definition stalled (st : state) (cars : list car) : state :=
  {| page := page st; consecutive_empty := 0; all_cars := all_cars st ++ cars |}.

(** The page whose records are collected, and the page that was requested,
    though the counter does not stand past it. *)
Definition collected_ahead (e : loop_end) : Z :=
  match e with
  | LoopRaised FromSave _ => 1
  | _ => 0
  end.

Definition requested_ahead (e : loop_end) : Z :=
  match e with
  | LoopRaised FromScrape _ | LoopRaised FromSave _ => 1
  | _ => 0
  end.

(** The rows of a collection, and the file they give as far as they can be
    written. *)
Definition rows_of (cars : list car) : list (list string) := csv_row <$> cars.

Definition csv_written (cars : list car) : list (list string) :=
  fieldnames :: fst (writerows (rows_of cars)).

(** What the way the loop was left tells, seen from the state at the
    end. *)
Definition left_as (e : loop_end) (st' : state) : Prop :=
  match e with
  | StillRunning => True
  | LoopDone => MAX_PAGES < page st'
  | LoopRaised FromScrape k =>
      page st' ≤ MAX_PAGES
      ∧ ∃ sig, k = kind_of_signal sig ∧ snd (scrape_page (page st')) = Raised sig
  | LoopRaised FromSave k =>
      page st' ≤ MAX_PAGES ∧ k = IsException
      ∧ page st' mod SAVE_INTERVAL = 0 ∧ returned (page st') ≠ []
      ∧ snd (writerows (rows_of (all_cars st'))) = true
  | LoopRaised FromSleep k =>
      page st' ≤ MAX_PAGES + 1 ∧ sleep_raises (page st' - 1) = Some k
  end.


(** ** Sample inputs for the environment *)

(** The three bytes that stand for the surrogate U+D800. *)
Definition lone_surrogate : string :=
  String (ascii_of_N 237) (String (ascii_of_N 160) (String (ascii_of_N 128) "")).

(** A block whose name holds a lone surrogate. *)
Definition civic_data : value :=
  VDict [ ("name", VStr ("Honda Civic " +:+ lone_surrogate));
          ("offers", VDict [ ("price", VInt 900000) ]) ].

Definition sample_loads_env (s : string) : option value :=
  if decide (s = "civic") then Some civic_data else sample_loads s.

Definition civic_listing : listing :=
  {| ld_json := Some {| script_string := Some "civic" |}; ad_specs := None |}.

Definition civic : car :=
  {| title := "Honda Civic " +:+ lone_surrogate; price := "PKR 900,000"; city := "";
     year := VStr ""; mileage := ""; color := ""; registered_in := "";
     fuel_type := ""; engine_capacity := ""; transmission := ""; link := VStr "" |}.




(** Ctrl-C in the sleep that follows page 2. *)
Definition interrupt_after_page_2 (page : Z) : option exception_kind :=
  if page =? 2 then Some IsKeyboardInterrupt else None.

(** [SystemExit] in the sleep that follows page 1. *)
Definition exit_after_page_1 (page : Z) : option exception_kind :=
  if page =? 1 then Some IsSystemExit else None.

(** ** Facts on the string primitives *)

Lemma str_app_cons c (a b : string) : String c a +:+ b = String c (a +:+ b).
Proof. reflexivity. Qed.

Lemma str_app_nil_r (a : string) : a +:+ "" = a.
Proof. induction a as [|c a IH]; [reflexivity|]. rewrite str_app_cons, IH. reflexivity. Qed.

Lemma str_app_assoc (a b c : string) : (a +:+ b) +:+ c = a +:+ (b +:+ c).
Proof.
  induction a as [|x a IH]; [reflexivity|].
  rewrite !str_app_cons, IH. reflexivity.
Qed.

Lemma str_length_app (a b : string) :
  String.length (a +:+ b) = (String.length a + String.length b)%nat.
Proof. induction a as [|c a IH]; [reflexivity|]. rewrite str_app_cons. simpl. lia. Qed.

Lemma rev_app_append (a b : string) : String.rev_app a b = String.rev a +:+ b.
Proof.
  unfold String.rev. revert b.
  induction a as [|c a IH]; intros b; simpl; [reflexivity|].
  rewrite (IH (String c b)), (IH (String c "")), str_app_assoc. reflexivity.
Qed.

Lemma rev_cons c (a : string) : String.rev (String c a) = String.rev a +:+ String c "".
Proof. unfold String.rev at 1. simpl. apply rev_app_append. Qed.

Lemma rev_append (a b : string) : String.rev (a +:+ b) = String.rev b +:+ String.rev a.
Proof.
  induction a as [|c a IH].
  - change ("" +:+ b) with b. rewrite str_app_nil_r. reflexivity.
  - rewrite str_app_cons, !rev_cons, IH, str_app_assoc. reflexivity.
Qed.

Lemma rev_involutive (a : string) : String.rev (String.rev a) = a.
Proof.
  induction a as [|c a IH]; [reflexivity|].
  rewrite rev_cons, rev_append, IH. reflexivity.
Qed.

Lemma startswith_spec p s : Py.startswith p s = true ↔ ∃ b, s = p +:+ b.
Proof.
  revert s. induction p as [|x p IH]; intros s; simpl.
  - split; [intros _; exists s; reflexivity | reflexivity].
  - destruct s as [|y s].
    + split; [discriminate | intros [b Hb]; discriminate Hb].
    + destruct (decide (x = y)) as [->|Hne].
      * rewrite IH. split; intros [b Hb]; exists b.
        -- rewrite str_app_cons, <- Hb. reflexivity.
        -- rewrite str_app_cons in Hb. congruence.
      * split; [discriminate|]. intros [b Hb]. rewrite str_app_cons in Hb. congruence.
Qed.

Lemma contains_spec p s : Py.contains p s = true ↔ substring_of p s.
Proof.
  unfold substring_of. induction s as [|c s IH]; simpl.
  - rewrite orb_false_r, startswith_spec. split.
    + intros [b Hb]. exists "", b. exact Hb.
    + intros [[|x a] [b Hb]]; [exists b; exact Hb|]. rewrite str_app_cons in Hb. discriminate.
  - rewrite orb_true_iff, startswith_spec, IH. split.
    + intros [[b Hb]|[a [b Hb]]].
      * exists "", b. exact Hb.
      * exists (String c a), b. rewrite str_app_cons, <- Hb. reflexivity.
    + intros [[|x a] [b Hb]].
      * left. exists b. exact Hb.
      * right. rewrite str_app_cons in Hb. exists a, b. congruence.
Qed.

Lemma split_go_no_separator sep s cur :
  Py.contains sep s = false →
  Py.split_go sep s 0 cur = [String.rev cur +:+ s].
Proof.
  revert cur. induction s as [|c s IH]; intros cur Hno.
  - simpl. rewrite str_app_nil_r. reflexivity.
  - cbn [Py.contains] in Hno. apply orb_false_iff in Hno as [Hstart Hrest].
    cbn [Py.split_go]. rewrite Hstart, (IH _ Hrest), rev_cons, str_app_assoc.
    reflexivity.
Qed.

Lemma split_no_separator sep s : Py.contains sep s = false → Py.split sep s = [s].
Proof. intros H. unfold Py.split. rewrite split_go_no_separator by exact H. reflexivity. Qed.

Lemma split_go_nonempty sep s skip cur : Py.split_go sep s skip cur ≠ [].
Proof.
  revert skip cur. induction s as [|c s IH]; intros skip cur; simpl; [discriminate|].
  destruct skip; [|apply IH]. destruct (Py.startswith sep _); [discriminate|apply IH].
Qed.

(** Passing over the rest of a matched separator. *)
Lemma split_go_skip sep a rest cur :
  Py.split_go sep (a +:+ rest) (String.length a) cur = Py.split_go sep rest 0 cur.
Proof.
  induction a as [|c a IH]; [reflexivity|].
  rewrite str_app_cons. simpl. exact IH.
Qed.

Lemma join_cons sep x l : l ≠ [] → Fmt.join sep (x :: l) = x +:+ sep +:+ Fmt.join sep l.
Proof. destruct l; [congruence | reflexivity]. Qed.

(** Joining the parts with the separator gives the text back. *)
Lemma join_split_go sep s cur :
  sep ≠ "" →
  Fmt.join sep (Py.split_go sep s 0 cur) = String.rev cur +:+ s.
Proof.
  intros Hsep. remember (String.length s) as n eqn:Hn.
  revert s cur Hn. induction (lt_wf n) as [n _ IH]. intros s cur ->.
  destruct s as [|c s]; [simpl; rewrite str_app_nil_r; reflexivity|].
  cbn [Py.split_go]. destruct (Py.startswith sep (String c s)) eqn:Hstart.
  - apply startswith_spec in Hstart as [rest Hrest].
    destruct sep as [|x sep']; [congruence|].
    rewrite str_app_cons in Hrest. injection Hrest as -> ->.
    cbn [String.length Nat.sub]. rewrite Nat.sub_0_r, split_go_skip.
    rewrite join_cons by apply split_go_nonempty.
    rewrite (IH (String.length rest)) with (s := rest) (cur := "") by
      (try reflexivity; simpl; rewrite str_length_app; lia).
    reflexivity.
  - rewrite (IH (String.length s)) with (s := s) by (try reflexivity; simpl; lia).
    rewrite rev_cons, str_app_assoc. reflexivity.
Qed.

Lemma join_split sep s : sep ≠ "" → Fmt.join sep (Py.split sep s) = s.
Proof. intros H. unfold Py.split. rewrite join_split_go by exact H. reflexivity. Qed.

(** ** Engine specs *)

Lemma no_separator_contains sep s : ¬ substring_of sep s → Py.contains sep s = false.
Proof.
  intros H. destruct (Py.contains sep s) eqn:E; [|reflexivity].
  apply contains_spec in E. contradiction.
Qed.

(** C4, as amended.  [parse_engine_specs] splits on the delimiter " . " and
    assigns the parts, each with its surrounding whitespace stripped, by
    position: the example text gives Petrol, 1300 cc and Automatic; with
    fewer than three parts the missing trailing fields are empty; a text
    without the delimiter gives its stripped self as [fuel_type] and two
    empty fields. *)
Theorem parse_engine_specs_positional :
  parse_engine_specs "Petrol . 1300 cc . Automatic" = ("Petrol", "1300 cc", "Automatic")
  ∧ (∀ s, let parts := Py.strip <$> Py.split " . " s in
          parse_engine_specs s =
            (default "" (parts !! 0%nat), default "" (parts !! 1%nat),
             default "" (parts !! 2%nat)))
  ∧ (∀ s, (length (Py.split " . " s) < 3)%nat → snd (parse_engine_specs s) = "")
  ∧ (∀ s, (length (Py.split " . " s) < 2)%nat →
          snd (fst (parse_engine_specs s)) = "" ∧ snd (parse_engine_specs s) = "")
  ∧ (∀ s, ¬ substring_of " . " s → parse_engine_specs s = (Py.strip s, "", "")).
Proof.
  assert (Hpos : ∀ s, let parts := Py.strip <$> Py.split " . " s in
            parse_engine_specs s =
              (default "" (parts !! 0%nat), default "" (parts !! 1%nat),
               default "" (parts !! 2%nat))).
  { intros s parts. unfold parse_engine_specs. fold parts.
    destruct parts as [|a [|b [|c rest]]]; reflexivity. }
  split; [vm_compute; reflexivity|]. split; [exact Hpos|].
  split; [|split].
  - intros s Hlen. rewrite Hpos. cbn [snd]. rewrite lookup_ge_None_2; [reflexivity|].
    rewrite length_fmap. lia.
  - intros s Hlen. rewrite Hpos. cbn [fst snd].
    rewrite !lookup_ge_None_2 by (rewrite length_fmap; lia). split; reflexivity.
  - intros s Hno. rewrite Hpos, split_no_separator by (apply no_separator_contains, Hno).
    reflexivity.
Qed.

(** ** City *)

Lemma lower_upper_char c : Py.lower_char (Py.upper_char c) = Py.lower_char c.
Proof. destruct c as [[] [] [] [] [] [] [] []]; reflexivity. Qed.

Lemma lower_idem_char c : Py.lower_char (Py.lower_char c) = Py.lower_char c.
Proof. destruct c as [[] [] [] [] [] [] [] []]; reflexivity. Qed.

Lemma lower_upper s : Py.lower (Py.upper s) = Py.lower s.
Proof. induction s as [|c s IH]; simpl; [reflexivity|]. rewrite lower_upper_char, IH. reflexivity. Qed.

Lemma lower_idem s : Py.lower (Py.lower s) = Py.lower s.
Proof. induction s as [|c s IH]; simpl; [reflexivity|]. rewrite lower_idem_char, IH. reflexivity. Qed.

Lemma first_city_hit pre c post d :
  Py.contains c d = true →
  (∀ c', c' ∈ pre → Py.contains c' d = false) →
  first_city (pre ++ c :: post) d = Py.title c.
Proof.
  intros Hc. induction pre as [|x pre IH]; intros Hpre; simpl.
  - rewrite Hc. reflexivity.
  - rewrite (Hpre x) by apply list_elem_of_here.
    apply IH. intros c' Hin. apply Hpre. apply list_elem_of_further, Hin.
Qed.

Lemma first_city_miss cs d :
  (∀ c, c ∈ cs → Py.contains c d = false) → first_city cs d = "".
Proof.
  induction cs as [|x cs IH]; intros H; simpl; [reflexivity|].
  rewrite (H x) by apply list_elem_of_here.
  apply IH. intros c Hin. apply H, list_elem_of_further, Hin.
Qed.

(** C5.  [extract_city_from_description] returns the first city of the
    fixed list that occurs in the lower-cased description, in title case,
    and the empty string when none occurs.  On ASCII descriptions the letter
    case does not matter: two descriptions with the same lower-case form
    give the same city, and so do a description and its upper-case form. *)
Theorem extract_city_first_match (desc : string) :
  (∀ pre c post,
      cities = pre ++ c :: post →
      substring_of c (Py.lower desc) →
      (∀ c', c' ∈ pre → ¬ substring_of c' (Py.lower desc)) →
      extract_city_from_description desc = Py.title c)
  ∧ ((∀ c, c ∈ cities → ¬ substring_of c (Py.lower desc)) →
     extract_city_from_description desc = "")
  ∧ Py.title <$> cities =
      [ "Karachi"; "Lahore"; "Islamabad"; "Rawalpindi"; "Faisalabad"; "Multan";
        "Peshawar"; "Quetta"; "Sialkot"; "Gujranwala"; "Hyderabad"; "Bahawalpur" ]
  ∧ (∀ desc',
       Py.isascii desc = true → Py.isascii desc' = true →
       Py.lower desc' = Py.lower desc →
       extract_city_from_description desc' = extract_city_from_description desc)
  ∧ (Py.isascii desc = true →
     extract_city_from_description (Py.upper desc) = extract_city_from_description desc).
Proof.
  unfold extract_city_from_description. repeat split.
  - intros pre c post -> Hc Hpre. apply first_city_hit.
    + apply contains_spec, Hc.
    + intros c' Hin. apply no_separator_contains, Hpre, Hin.
  - intros Hnone. apply first_city_miss.
    intros c Hin. apply no_separator_contains, Hnone, Hin.
  - intros desc' _ _ ->. reflexivity.
  - intros _. rewrite lower_upper. reflexivity.
Qed.

(** ** Extraction of one listing *)

Lemma extract_listing_inv li c :
  extract_listing li = Ok (Some c) →
  ∃ s items name description offer_items,
    ld_json li = Some {| script_string := Some s |}
    ∧ s ≠ ""
    ∧ json_loads s = Some (VDict items)
    ∧ default (VStr "") (lookup_key "name" items) = VStr name
    ∧ default (VStr "") (lookup_key "description" items) = VStr description
    ∧ offers_of items = VDict offer_items
    ∧ c = (let price := default (VStr "") (lookup_key "price" offer_items) in
           let currency := default (VStr "PKR") (lookup_key "priceCurrency" offer_items) in
           let year := default (VStr "") (lookup_key "modelDate" items) in
           let found_specs := read_specs (ad_specs li) in
           {| title := Py.strip name;
              price := if is_int_or_float price
                       then Fmt.str currency +:+ " " +:+ Fmt.grouped price
                       else Fmt.str price;
              city := extract_city_from_description (Py.strip description);
              year := if is_int_or_float year then VStr (Fmt.str year) else year;
              mileage := s_mileage found_specs;
              color := s_color found_specs;
              registered_in := s_registered_in found_specs;
              fuel_type := s_fuel_type found_specs;
              engine_capacity := s_engine_capacity found_specs;
              transmission := s_transmission found_specs;
              link := default (VStr "") (lookup_key "url" offer_items) |}).
Proof.
  unfold extract_listing. intros H.
  destruct (ld_json li) as [[[s|]]|]; cbn [script_string] in H; try discriminate H.
  destruct (decide (s = "")) as [|Hs]; [discriminate H|].
  destruct (json_loads s) as [data|] eqn:Hloads; [|discriminate H].
  destruct data as [| | | | |?|items]; try discriminate H.
  cbn [get mbind exc_bind] in H.
  destruct (default (VStr "") (lookup_key "name" items)) as [| | | |name| |] eqn:Hname;
    try discriminate H.
  cbn [strip mbind exc_bind] in H.
  destruct (default (VStr "") (lookup_key "description" items))
    as [| | | |description| |] eqn:Hdesc; try discriminate H.
  cbn [strip mbind exc_bind] in H.
  fold (offers_of items) in H.
  destruct (offers_of items) as [| | | | |?|offer_items] eqn:Hoffers; try discriminate H.
  cbn [get mbind exc_bind] in H.
  exists s, items, name, description, offer_items.
  repeat split; try assumption; try reflexivity.
  injection H as <-. reflexivity.
Qed.
(** ** The spec list *)

Lemma spec_step_hit k acc spec :
  classify spec = Some k → specs_hold k (spec_step acc spec) (text spec).
Proof.
  unfold classify, spec_step. intros H.
  destruct (any_class "pw-mileage" _); [injection H as <-; reflexivity|].
  destruct (any_class "pw-color" _); [injection H as <-; reflexivity|].
  destruct (any_class "pw-registration" _); [injection H as <-; reflexivity|].
  destruct (any_class "pw-engine" _); [injection H as <-|discriminate H].
  cbn [specs_hold]. destruct (parse_engine_specs (text spec)) as [[f e] t]. reflexivity.
Qed.

Lemma spec_step_other k acc spec t :
  classify spec ≠ Some k → specs_hold k acc t → specs_hold k (spec_step acc spec) t.
Proof.
  unfold classify, spec_step. intros Hk Hacc.
  destruct (any_class "pw-mileage" _); [destruct k; try congruence; exact Hacc|].
  destruct (any_class "pw-color" _); [destruct k; try congruence; exact Hacc|].
  destruct (any_class "pw-registration" _); [destruct k; try congruence; exact Hacc|].
  destruct (any_class "pw-engine" _); [|exact Hacc].
  destruct (parse_engine_specs (text spec)) as [[f e] t'].
  destruct k; try congruence; exact Hacc.
Qed.

Lemma fold_specs_other k post acc t :
  (∀ x, x ∈ post → classify x ≠ Some k) →
  specs_hold k acc t → specs_hold k (fold_left spec_step post acc) t.
Proof.
  revert acc. induction post as [|x post IH]; intros acc Hpost Hacc; [exact Hacc|].
  simpl. apply IH.
  - intros y Hy. apply Hpost, list_elem_of_further, Hy.
  - apply spec_step_other; [apply Hpost, list_elem_of_here | exact Hacc].
Qed.

Lemma fold_specs_last k pre spec post acc :
  classify spec = Some k →
  (∀ x, x ∈ post → classify x ≠ Some k) →
  specs_hold k (fold_left spec_step (pre ++ spec :: post) acc) (text spec).
Proof.
  intros Hk Hpost. rewrite fold_left_app. simpl.
  apply fold_specs_other; [exact Hpost | apply spec_step_hit, Hk].
Qed.

(** C10.  When items of a listing's spec list fall under the same icon-class
    token, the record holds what the last of them gives: its text for
    mileage, color and registration, and the three parts of its text for
    the engine.  Whatever an earlier item of the kind gave is overwritten. *)
Theorem last_spec_item_wins li c k pre spec post :
  extract_listing li = Ok (Some c) →
  ad_specs li = Some (pre ++ spec :: post) →
  classify spec = Some k →
  (∀ x, x ∈ post → classify x ≠ Some k) →
  car_holds k c (text spec).
Proof.
  intros Hc Hspecs Hk Hpost.
  apply extract_listing_inv in Hc as (s & items & name & description & offer_items & H).
  destruct H as (_ & _ & _ & _ & _ & _ & ->).
  pose proof (fold_specs_last k pre spec post no_specs Hk Hpost) as Hlast.
  rewrite Hspecs. cbn [read_specs]. destruct k; exact Hlast.
Qed.

(** ** Listings without structured data *)

Lemma extract_from_app a b cars :
  extract_from (a ++ b) cars = cars' ← extract_from a cars; extract_from b cars'.
Proof.
  revert cars. induction a as [|li a IH]; intros cars; [reflexivity|].
  cbn [app extract_from]. destruct (extract_listing li) as [r|e]; [|reflexivity].
  cbn [mbind exc_bind]. apply IH.
Qed.

Lemma no_structured_data_skip li : no_structured_data li → extract_listing li = Ok None.
Proof.
  unfold extract_listing. intros [->|(tag & -> & [->| [->| (s & -> & Hs)]])]; try reflexivity.
  destruct (decide (s = "")); [reflexivity|]. rewrite Hs. reflexivity.
Qed.

(** C3.  A listing whose structured-data block is absent or malformed gives
    no record and raises nothing, and the page gives what it gives without
    that listing: the listings before and after it are extracted as
    usual. *)
Theorem missing_structured_data_skipped li :
  no_structured_data li →
  extract_listing li = Ok None
  ∧ ∀ pre post,
      extract (pre ++ li :: post) = extract (pre ++ post)
      ∧ cars_of_response (pre ++ li :: post) = cars_of_response (pre ++ post).
Proof.
  intros Hno. pose proof (no_structured_data_skip li Hno) as Hskip.
  split; [exact Hskip|]. intros pre post.
  assert (Heq : extract (pre ++ li :: post) = extract (pre ++ post)).
  { unfold extract. rewrite !extract_from_app.
    destruct (extract_from pre []) as [cars|e]; [|reflexivity].
    cbn [mbind exc_bind extract_from]. rewrite Hskip. reflexivity. }
  split; [exact Heq|]. unfold cars_of_response. rewrite Heq. reflexivity.
Qed.

(** ** Digit grouping *)






Lemma pretty_Z_nonneg (n : Z) : 0 ≤ n → pretty n = pretty (Z.to_N n).
Proof. intros Hn. destruct n as [|p|p]; [reflexivity | reflexivity | lia]. Qed.

Lemma pretty_N_pos (x : N) : (0 < x)%N → pretty x = pretty_N_go x "".
Proof.
  intros Hx. unfold pretty, pretty_N. destruct (decide (x = 0)%N); [lia | reflexivity].
Qed.






(** ** Retries *)

Lemma attempts_from_retry page remaining attempt :
  retryable (session_get page attempt) →
  attempt < 4 →
  attempts_from page (S remaining) attempt =
    (EvGet page (20 + attempt * 10) :: EvSleep (inject_Z (2 * 2 ^ attempt)) ::
       fst (attempts_from page remaining (attempt + 1)),
     snd (attempts_from page remaining (attempt + 1))).
Proof.
  intros Hretry Hlt. cbn [attempts_from].
  assert (Hb : (attempt <? MAX_RETRIES - 1) = true) by (apply Z.ltb_lt; exact Hlt).
  destruct Hretry as [-> | ->]; rewrite Hb;
    destruct (attempts_from page remaining (attempt + 1)); reflexivity.
Qed.

Lemma attempts_from_give_up page remaining :
  retryable (session_get page 4) →
  attempts_from page (S remaining) 4 = ([EvGet page 60], Returns []).
Proof. intros Hretry. cbn [attempts_from]. destruct Hretry as [-> | ->]; reflexivity. Qed.

(** C1.  When the first four attempts at a page fail with a timeout or a
    transport-level error and the fifth gets a response, [scrape_page]
    returns the records extracted from it after five GET requests; when
    all five fail it returns the empty list.  In both cases the wait after
    the failed attempt [i < 4] is [2 * 2 ^ i], and nothing follows the
    fifth request. *)
Theorem scrape_page_retries page :
  (∀ body,
      (∀ i, 0 ≤ i < 4 → retryable (session_get page i)) →
      session_get page 4 = Response body →
      scrape_page page = (five_attempts page, Returns (cars_of_response body)))
  ∧ ((∀ i, 0 ≤ i < 5 → retryable (session_get page i)) →
     scrape_page page = (five_attempts page, Returns []))
  ∧ attempts_made (five_attempts page) = 5%nat
  ∧ waits (five_attempts page) =
      [ inject_Z (2 * 2 ^ 0); inject_Z (2 * 2 ^ 1); inject_Z (2 * 2 ^ 2);
        inject_Z (2 * 2 ^ 3) ].
Proof.
  unfold scrape_page. change (Z.to_nat MAX_RETRIES) with 5%nat.
  split; [|split; [|split; reflexivity]].
  - intros body Hfail Hok.
    rewrite attempts_from_retry by (try apply Hfail; lia).
    rewrite attempts_from_retry by (try apply Hfail; lia).
    rewrite attempts_from_retry by (try apply Hfail; lia).
    rewrite attempts_from_retry by (try apply Hfail; lia).
    change (0 + 1 + 1 + 1 + 1) with 4.
    cbn [attempts_from]. rewrite Hok. reflexivity.
  - intros Hfail.
    rewrite attempts_from_retry by (try apply Hfail; lia).
    rewrite attempts_from_retry by (try apply Hfail; lia).
    rewrite attempts_from_retry by (try apply Hfail; lia).
    rewrite attempts_from_retry by (try apply Hfail; lia).
    change (0 + 1 + 1 + 1 + 1) with 4.
    rewrite attempts_from_give_up by (apply Hfail; lia). reflexivity.
Qed.

(** ** The driver loop *)

Lemma while_loop_unfold fuel st :
  while_loop (S fuel) st =
    if page st <=? MAX_PAGES then
      match snd (scrape_page (page st)) with
      | Raised sig => (fst (scrape_page (page st)), (status_of sig, st))
      | Returns cars =>
          (fst (scrape_page (page st)) ++ checkpoint st cars ++
             EvSleep (page_sleep cars) :: fst (while_loop fuel (next_state st cars)),
           snd (while_loop fuel (next_state st cars)))
      end
    else ([], (DONE, st)).
Proof.
  cbn [while_loop]. destruct (page st <=? MAX_PAGES); [|reflexivity].
  destruct (scrape_page (page st)) as [fetched [cars|sig]]; [|reflexivity].
  cbn [fst snd]. destruct cars as [|c cars].
  - cbn [next_state checkpoint app]. destruct (while_loop fuel _). reflexivity.
  - cbn [next_state checkpoint]. destruct (while_loop fuel _). reflexivity.
Qed.

Lemma next_state_page st cars : page (next_state st cars) = page st + 1.
Proof. destruct cars; reflexivity. Qed.

Lemma next_state_all_cars st cars : all_cars (next_state st cars) = all_cars st ++ cars.
Proof. destruct cars; cbn [next_state all_cars]; [rewrite (right_id_L [] (++))|]; reflexivity. Qed.

Lemma while_loop_page_mono fuel st : page st ≤ page (snd (snd (while_loop fuel st))).
Proof.
  revert st. induction fuel as [|fuel IH]; intros st; [reflexivity|].
  rewrite while_loop_unfold. destruct (page st <=? MAX_PAGES); [|reflexivity].
  destruct (snd (scrape_page (page st))) as [cars|sig]; cbn [fst snd]; [|reflexivity].
  specialize (IH (next_state st cars)). rewrite next_state_page in IH. lia.
Qed.

Lemma no_pages_no_cars st :
  all_cars st = all_cars st ++ concat (returned <$> seqZ (page st) (page st - page st)).
Proof.
  rewrite Z.sub_diag. change (seqZ (page st) 0) with (@nil Z).
  cbn [fmap list_fmap concat]. rewrite (right_id_L [] (++)). reflexivity.
Qed.

(** The collection at the end is the one at the start followed by what the
    pages in between returned, in page order. *)
Lemma while_loop_all_cars fuel st :
  let st' := snd (snd (while_loop fuel st)) in
  all_cars st' = all_cars st ++ concat (returned <$> seqZ (page st) (page st' - page st)).
Proof.
  revert st. induction fuel as [|fuel IH]; intros st; cbn zeta.
  - cbn [while_loop snd]. apply no_pages_no_cars.
  - rewrite while_loop_unfold. destruct (page st <=? MAX_PAGES).
    2:{ cbn [snd]. apply no_pages_no_cars. }
    destruct (snd (scrape_page (page st))) as [cars|sig] eqn:Hr; cbn [fst snd].
    2:{ apply no_pages_no_cars. }
    pose proof (while_loop_page_mono fuel (next_state st cars)) as Hmono.
    specialize (IH (next_state st cars)). cbn zeta in IH.
    rewrite next_state_page in Hmono, IH. rewrite next_state_all_cars in IH.
    rewrite IH, (seqZ_cons (page st)) by lia. cbn [fmap list_fmap concat].
    unfold returned at 2. rewrite Hr, <- (assoc_L (++)).
    replace (Z.pred (page (snd (snd (while_loop fuel (next_state st cars)))) - page st))
      with (page (snd (snd (while_loop fuel (next_state st cars)))) - (page st + 1)) by lia.
    reflexivity.
Qed.

Lemma attempts_from_no_save page remaining attempt :
  saves (fst (attempts_from page remaining attempt)) = [].
Proof.
  revert attempt. induction remaining as [|remaining IH]; intros attempt; [reflexivity|].
  cbn [attempts_from].
  destruct (session_get page attempt); try reflexivity;
    (destruct (attempt <? MAX_RETRIES - 1); [|reflexivity];
     specialize (IH (attempt + 1));
     destruct (attempts_from page remaining (attempt + 1)); exact IH).
Qed.

Lemma saves_app evs evs' : saves (evs ++ evs') = saves evs ++ saves evs'.
Proof.
  induction evs as [|[]]; cbn [app saves]; [reflexivity| | |]; rewrite ?IHevs; reflexivity.
Qed.

Lemma backup_is_not_final page : backup_file page ≠ final_file.
Proof.
  unfold backup_file, final_file. intros H.
  repeat rewrite str_app_cons in H.
  change ("" +:+ pretty page +:+ ".csv") with (pretty page +:+ ".csv") in H.
  discriminate H.
Qed.

Lemma checkpoint_saves st cars :
  Forall (λ w, ∃ p, fst w = backup_file p) (saves (checkpoint st cars)).
Proof.
  unfold checkpoint. destruct cars; [constructor|].
  destruct (_ =? _); repeat constructor. exists (page st). reflexivity.
Qed.


Lemma saves_elem_of name rows evs : (name, rows) ∈ saves evs ↔ EvSave name rows ∈ evs.
Proof.
  induction evs as [|ev evs IH].
  - cbn [saves]. split; intros H; inversion H.
  - destruct ev as [? ?|?|name' rows']; cbn [saves].
    + rewrite IH, elem_of_cons. split; [auto | intros [H|H]; [discriminate H | exact H]].
    + rewrite IH, elem_of_cons. split; [auto | intros [H|H]; [discriminate H | exact H]].
    + rewrite !elem_of_cons, IH. split.
      * intros [H|H]; [left; congruence | right; exact H].
      * intros [H|H]; [left; congruence | right; exact H].
Qed.


Lemma main_unfold :
  main = (fst (while_loop main_fuel initial) ++
            finalize (all_cars (snd (snd (while_loop main_fuel initial)))),
          snd (while_loop main_fuel initial)).
Proof. unfold main. destruct (while_loop main_fuel initial) as [evs [s st]]. reflexivity. Qed.

(** C8, as amended.  An iteration whose page returns records ends with a
    sleep of 1.5 seconds, after the checkpoint if there is one; an
    iteration whose page returns nothing ends with a sleep of 2 seconds.
    The sleep after a page with records is the shorter one. *)
Theorem page_sleep_after_iteration fuel st cars :
  page st ≤ MAX_PAGES →
  snd (scrape_page (page st)) = Returns cars →
  fst (while_loop (S fuel) st) =
    fst (scrape_page (page st)) ++ checkpoint st cars ++
      EvSleep (page_sleep cars) :: fst (while_loop fuel (next_state st cars))
  ∧ waits (checkpoint st cars) = []
  ∧ (cars ≠ [] → page_sleep cars = (3 # 2)%Q ∧ (page_sleep cars < page_sleep [])%Q)
  ∧ (cars = [] → page_sleep cars = inject_Z 2 ∧ checkpoint st cars = []).
Proof.
  intros Hpage Hr. rewrite while_loop_unfold, Hr.
  apply Z.leb_le in Hpage. rewrite Hpage. cbn [fst].
  split; [reflexivity|]. split; [|split].
  - unfold checkpoint. destruct cars; [reflexivity|]. destruct (_ =? _); reflexivity.
  - intros Hne. destruct cars; [congruence|]. split; reflexivity.
  - intros ->. split; reflexivity.
Qed.

(** ** The counter *)

Lemma while_loop_forget fuel st :
  while_loop_nc fuel (forget st) =
    (fst (while_loop fuel st),
     (fst (snd (while_loop fuel st)), forget (snd (snd (while_loop fuel st))))).
Proof.
  revert st. induction fuel as [|fuel IH]; intros st; [reflexivity|].
  cbn [while_loop while_loop_nc forget nc_page nc_all_cars].
  destruct (page st <=? MAX_PAGES); [|reflexivity].
  destruct (scrape_page (page st)) as [fetched [[|c cars]|sig]]; [| |reflexivity].
  - pose proof (IH {| page := page st + 1;
                      consecutive_empty := consecutive_empty st + 1;
                      all_cars := all_cars st |}) as H.
    unfold forget in H at 1. cbn [page all_cars] in H. rewrite H.
    destruct (while_loop fuel _) as [evs [s st']]. reflexivity.
  - pose proof (IH {| page := page st + 1;
                      consecutive_empty := 0;
                      all_cars := all_cars st ++ c :: cars |}) as H.
    unfold forget in H at 1. cbn [page all_cars] in H. rewrite H.
    destruct (while_loop fuel _) as [evs [s st']]. reflexivity.
Qed.

(** C9.  The run of the driver and the run of the driver without the
    counter have the same trace (the pages fetched, the sleeps, the files
    written), the same final status and the same page and collection at the
    end; from any state on, the value of the counter changes none of them.
    The counter itself goes up by one on a page without records and back
    to zero on a page with records. *)
Theorem counter_is_inert :
  fst main = fst main_nc
  ∧ fst (snd main) = fst (snd main_nc)
  ∧ forget (snd (snd main)) = snd (snd main_nc)
  ∧ (∀ fuel st k,
       fst (while_loop fuel (with_counter k st)) = fst (while_loop fuel st)
       ∧ fst (snd (while_loop fuel (with_counter k st))) = fst (snd (while_loop fuel st))
       ∧ forget (snd (snd (while_loop fuel (with_counter k st)))) =
           forget (snd (snd (while_loop fuel st))))
  ∧ (∀ st,
       consecutive_empty (snd (snd (while_loop 1 st))) =
         if page st <=? MAX_PAGES then
           match snd (scrape_page (page st)) with
           | Returns [] => consecutive_empty st + 1
           | Returns (_ :: _) => 0
           | Raised _ => consecutive_empty st
           end
         else consecutive_empty st).
Proof.
  assert (Hmain : main_nc =
            (fst main, (fst (snd main), forget (snd (snd main))))).
  { unfold main_nc. change {| nc_page := 1; nc_all_cars := [] |} with (forget initial).
    rewrite while_loop_forget, main_unfold. reflexivity. }
  split; [|split; [|split; [|split]]].
  - rewrite Hmain. reflexivity.
  - rewrite Hmain. reflexivity.
  - rewrite Hmain. reflexivity.
  - intros fuel st k.
    pose proof (while_loop_forget fuel (with_counter k st)) as H1.
    pose proof (while_loop_forget fuel st) as H2.
    change (forget (with_counter k st)) with (forget st) in H1.
    rewrite H2 in H1.
    pose proof (f_equal fst H1) as Ha.
    pose proof (f_equal (λ r, fst (snd r)) H1) as Hb.
    pose proof (f_equal (λ r, snd (snd r)) H1) as Hc.
    cbn [fst snd] in Ha, Hb, Hc. auto.
  - intros st. rewrite while_loop_unfold. destruct (page st <=? MAX_PAGES); [|reflexivity].
    destruct (snd (scrape_page (page st))) as [[|c cars]|sig]; reflexivity.
Qed.

(** ** The retry loop at large *)

Lemma retryable_dec (o : http_outcome) : {retryable o} + {¬ retryable o}.
Proof.
  destruct o; [right|left; left; reflexivity|left; right; reflexivity|right|right];
    intros [H|H]; discriminate H.
Qed.

(** The loop stops at the first attempt that is not a retryable failure, or
    at the fifth. *)
Lemma attempts_from_stop page k : ∀ remaining attempt,
  0 ≤ attempt → attempt + Z.of_nat k ≤ 4 → (k < remaining)%nat →
  (∀ i, attempt ≤ i < attempt + Z.of_nat k → retryable (session_get page i)) →
  ¬ retryable (session_get page (attempt + Z.of_nat k)) ∨ attempt + Z.of_nat k = 4 →
  attempts_from page remaining attempt =
    (retries_then_get page k attempt, result_of (session_get page (attempt + Z.of_nat k))).
Proof.
  induction k as [|k IH]; intros remaining attempt Hpos Hmax Hrem Hfail Hstop.
  - destruct remaining as [|remaining]; [lia|].
    replace (attempt + Z.of_nat 0) with attempt in * by lia.
    cbn [attempts_from retries_then_get].
    destruct (session_get page attempt) eqn:Hget; try reflexivity.
    + destruct Hstop as [Hno| ->]; [destruct Hno; left; reflexivity | reflexivity].
    + destruct Hstop as [Hno| ->]; [destruct Hno; right; reflexivity | reflexivity].
  - destruct remaining as [|remaining]; [lia|].
    rewrite attempts_from_retry by (try apply Hfail; lia).
    rewrite (IH remaining (attempt + 1)); try lia.
    + cbn [fst snd retries_then_get].
      replace (attempt + 1 + Z.of_nat k) with (attempt + Z.of_nat (S k)) by lia.
      reflexivity.
    + intros i Hi. apply Hfail. lia.
    + replace (attempt + 1 + Z.of_nat k) with (attempt + Z.of_nat (S k)) by lia.
      exact Hstop.
Qed.

Lemma scrape_page_stop page :
  ∃ k, (k ≤ 4)%nat
       ∧ (∀ i, 0 ≤ i < Z.of_nat k → retryable (session_get page i))
       ∧ (¬ retryable (session_get page (Z.of_nat k)) ∨ k = 4%nat).
Proof.
  destruct (retryable_dec (session_get page 0)) as [H0|H0].
  2:{ exists 0%nat. split; [lia|]. split; [intros i Hi; lia | left; exact H0]. }
  destruct (retryable_dec (session_get page 1)) as [H1|H1].
  2:{ exists 1%nat. split; [lia|]. split; [|left; exact H1].
      intros i Hi. replace i with 0 by lia. exact H0. }
  destruct (retryable_dec (session_get page 2)) as [H2|H2].
  2:{ exists 2%nat. split; [lia|]. split; [|left; exact H2].
      intros i Hi. assert (i = 0 ∨ i = 1) as [-> | ->] by lia; assumption. }
  destruct (retryable_dec (session_get page 3)) as [H3|H3].
  2:{ exists 3%nat. split; [lia|]. split; [|left; exact H3].
      intros i Hi. assert (i = 0 ∨ i = 1 ∨ i = 2) as [-> | [-> | ->]] by lia; assumption. }
  exists 4%nat. split; [lia|]. split; [|right; reflexivity].
  intros i Hi.
  assert (i = 0 ∨ i = 1 ∨ i = 2 ∨ i = 3) as [-> | [-> | [-> | ->]]] by lia; assumption.
Qed.

(** X1.  [scrape_page] goes on as long as the attempts fail with a timeout
    or a transport-level error, and stops at the first attempt [k] that does
    not (or at the fifth): it has made [k + 1] requests, with the timeout
    [20 + 10 i] for attempt [i] and the wait [2 * 2 ^ i] after each failed
    attempt [i < k], and what it returns is decided by attempt [k] alone: the
    records of a response, nothing on any other exception, and an uncaught
    signal is passed on. *)
Theorem scrape_page_stops_at_first_final_outcome page (k : nat) :
  (k ≤ 4)%nat →
  (∀ i, 0 ≤ i < Z.of_nat k → retryable (session_get page i)) →
  ¬ retryable (session_get page (Z.of_nat k)) ∨ k = 4%nat →
  scrape_page page = (retries_then_get page k 0, result_of (session_get page (Z.of_nat k)))
  ∧ attempts_made (retries_then_get page k 0) = S k
  ∧ waits (retries_then_get page k 0) = (λ i, inject_Z (2 * 2 ^ i)) <$> seqZ 0 (Z.of_nat k).
Proof.
  intros Hk Hfail Hstop. split; [|split].
  - unfold scrape_page. change (Z.to_nat MAX_RETRIES) with 5%nat.
    rewrite (attempts_from_stop page k 5 0); try lia.
    + reflexivity.
    + intros i Hi. apply Hfail. lia.
    + destruct Hstop as [H| ->]; [left; exact H | right; reflexivity].
  - clear. generalize 0. induction k as [|k IH]; intros a; [reflexivity|].
    cbn [retries_then_get attempts_made]. rewrite IH. reflexivity.
  - clear. generalize 0. induction k as [|k IH]; intros a; [reflexivity|].
    cbn [retries_then_get waits]. rewrite IH.
    rewrite (seqZ_cons a) by lia. cbn [fmap list_fmap].
    replace (Z.pred (Z.of_nat (S k))) with (Z.of_nat k) by lia. reflexivity.
Qed.

Lemma retries_then_get_bounds page (k : nat) :
  (k ≤ 4)%nat →
  (1 ≤ attempts_made (retries_then_get page k 0) ≤ 5)%nat
  ∧ saves (retries_then_get page k 0) = []
  ∧ Forall (scrape_event page) (retries_then_get page k 0)
  ∧ (total_wait (retries_then_get page k 0) <= 30)%Q.
Proof.
  intros Hk.
  assert (k = 0 ∨ k = 1 ∨ k = 2 ∨ k = 3 ∨ k = 4)%nat
    as [-> | [-> | [-> | [-> | ->]]]] by lia;
    (split; [cbn; lia|]); (split; [reflexivity|]);
    (split; [repeat constructor; vm_compute; congruence | vm_compute; congruence]).
Qed.

Lemma scrape_page_bounds page :
  (1 ≤ attempts_made (fst (scrape_page page)) ≤ 5)%nat
  ∧ saves (fst (scrape_page page)) = []
  ∧ Forall (scrape_event page) (fst (scrape_page page))
  ∧ (total_wait (fst (scrape_page page)) <= 30)%Q.
Proof.
  destruct (scrape_page_stop page) as (k & Hk & Hfail & Hstop).
  unfold scrape_page. change (Z.to_nat MAX_RETRIES) with 5%nat.
  rewrite (attempts_from_stop page k 5 0); try lia.
  - cbn [fst]. apply retries_then_get_bounds, Hk.
  - intros i Hi. apply Hfail. lia.
  - destruct Hstop as [H| ->]; [left; exact H | right; reflexivity].
Qed.

(** X2.  Whatever the network does, the scrape of a page makes between one
    and five requests, all for that page and with a timeout from 20 to 60,
    waits between 2 and 16 seconds at a time and 30 seconds at most in all,
    and writes no file. *)
Theorem scrape_page_is_bounded page :
  (1 ≤ attempts_made (fst (scrape_page page)) ≤ 5)%nat
  ∧ saves (fst (scrape_page page)) = []
  ∧ Forall (scrape_event page) (fst (scrape_page page))
  ∧ (total_wait (fst (scrape_page page)) <= 30)%Q.
Proof.
  destruct (scrape_page_stop page) as (k & Hk & Hfail & Hstop).
  unfold scrape_page. change (Z.to_nat MAX_RETRIES) with 5%nat.
  rewrite (attempts_from_stop page k 5 0); try lia.
  - cbn [fst]. apply retries_then_get_bounds, Hk.
  - intros i Hi. apply Hfail. lia.
  - destruct Hstop as [H| ->]; [left; exact H | right; reflexivity].
Qed.

(** ** The page as a whole *)

Lemma extract_from_acc lis cars :
  extract_from lis cars = more ← extract_from lis []; Ok (cars ++ more).
Proof.
  revert cars. induction lis as [|li lis IH]; intros cars.
  - cbn [extract_from mbind exc_bind]. rewrite (right_id_L [] (++)). reflexivity.
  - cbn [extract_from]. destruct (extract_listing li) as [[c|]|e]; cbn [mbind exc_bind].
    + rewrite (IH (cars ++ [c])), (IH ([] ++ [c])).
      destruct (extract_from lis []) as [more|e]; cbn [mbind exc_bind]; [|reflexivity].
      rewrite <- !(assoc_L (++)). reflexivity.
    + apply IH.
    + reflexivity.
Qed.

Lemma extract_from_length lis : ∀ cars found,
  extract_from lis cars = Ok found → (length found ≤ length cars + length lis)%nat.
Proof.
  induction lis as [|li lis IH]; intros cars found H; cbn [extract_from] in H.
  - injection H as <-. cbn [length]. lia.
  - destruct (extract_listing li) as [[c|]|e]; cbn [mbind exc_bind] in H;
      [| |discriminate H]; apply IH in H; rewrite ?length_app in H; cbn [length] in *; lia.
Qed.

Lemma extract_from_raises pre li post e :
  extract_listing li = Raise e →
  ∀ cars, ∃ e', extract_from (pre ++ li :: post) cars = Raise e'.
Proof.
  intros Hli. induction pre as [|x pre IH]; intros cars; cbn [app extract_from].
  - rewrite Hli. exists e. reflexivity.
  - destruct (extract_listing x) as [r|e']; cbn [mbind exc_bind]; [apply IH|].
    exists e'. reflexivity.
Qed.

(** X3.  One listing whose block makes the extraction raise costs the whole
    page: nothing of the page is returned, also not the records of the
    listings before it, and the page is not tried again. *)
Theorem one_raising_listing_empties_page body li e :
  li ∈ body →
  extract_listing li = Raise e →
  cars_of_response body = []
  ∧ ∀ page, session_get page 0 = Response body →
            scrape_page page = ([EvGet page 20], Returns []).
Proof.
  intros Hin Hli. apply list_elem_of_split in Hin as (pre & post & ->).
  assert (Hnone : cars_of_response (pre ++ li :: post) = []).
  { unfold cars_of_response, extract.
    destruct (extract_from_raises pre li post e Hli []) as [e' ->]. reflexivity. }
  split; [exact Hnone|]. intros page Hget.
  unfold scrape_page. change (Z.to_nat MAX_RETRIES) with 5%nat.
  cbn [attempts_from]. rewrite Hget, Hnone. reflexivity.
Qed.

(** X4.  The records of a page come in the order of its listings, at most
    one for each: the records of two stretches of listings that both extract
    are, put together, the records of the two stretches. *)
Theorem extract_in_listing_order a b ca cb :
  extract a = Ok ca →
  extract b = Ok cb →
  extract (a ++ b) = Ok (ca ++ cb)
  ∧ (length ca ≤ length a)%nat
  ∧ (length (ca ++ cb) ≤ length (a ++ b))%nat.
Proof.
  unfold extract. intros Ha Hb. split; [|split].
  - rewrite extract_from_app, Ha. cbn [mbind exc_bind].
    rewrite extract_from_acc, Hb. reflexivity.
  - apply extract_from_length in Ha. cbn [length] in Ha. lia.
  - apply extract_from_length in Ha, Hb. rewrite !length_app. cbn [length] in *. lia.
Qed.

(** X5.  For a listing whose block decodes, the extraction gives a record
    exactly when the decoded value is well shaped, and raises exactly when it
    is not; a key that is missing is never the reason: an object without
    any of the keys is well shaped. *)
Theorem decoded_block_record_or_raise li s data :
  ld_json li = Some {| script_string := Some s |} →
  s ≠ "" →
  json_loads s = Some data →
  ((∃ c, extract_listing li = Ok (Some c)) ↔ well_shaped data = true)
  ∧ (extract_listing li = Raise AttributeError ↔ well_shaped data = false)
  ∧ extract_listing li ≠ Ok None
  ∧ well_shaped (VDict []) = true.
Proof.
  intros Hld Hs Hloads.
  assert (Hcases : (well_shaped data = true ∧ ∃ c, extract_listing li = Ok (Some c))
                   ∨ (well_shaped data = false ∧ extract_listing li = Raise AttributeError)).
  { unfold extract_listing. rewrite Hld. cbn [script_string].
    destruct (decide (s = "")) as [|_]; [contradiction|]. rewrite Hloads.
    destruct data as [| | | | |?|items]; try (right; split; reflexivity).
    cbn [get mbind exc_bind well_shaped].
    destruct (default (VStr "") (lookup_key "name" items));
      try (right; split; reflexivity).
    cbn [strip mbind exc_bind is_str andb].
    destruct (default (VStr "") (lookup_key "description" items));
      try (right; split; reflexivity).
    cbn [strip mbind exc_bind is_str andb].
    fold (offers_of items).
    destruct (offers_of items); try (right; split; reflexivity).
    left. split; [reflexivity|]. cbn [get mbind exc_bind]. eexists. reflexivity. }
  split; [|split; [|split; [|reflexivity]]].
  - split; [|intros Hw; destruct Hcases as [[_ H]|[H _]]; [exact H | congruence]].
    intros [c Hc]. destruct Hcases as [[H _]|[_ H]]; [exact H | congruence].
  - split; [|intros Hw; destruct Hcases as [[H _]|[_ H]]; [congruence | exact H]].
    intros Hr. destruct Hcases as [[_ [c H]]|[H _]]; [congruence | exact H].
  - destruct Hcases as [[_ [c H]]|[_ H]]; congruence.
Qed.

(** ** The spec list, kind by kind *)

Lemma spec_step_frame k acc spec :
  classify spec ≠ Some k → specs_fields k (spec_step acc spec) = specs_fields k acc.
Proof.
  unfold classify, spec_step. intros Hk.
  destruct (any_class "pw-mileage" _); [destruct k; try congruence; reflexivity|].
  destruct (any_class "pw-color" _); [destruct k; try congruence; reflexivity|].
  destruct (any_class "pw-registration" _); [destruct k; try congruence; reflexivity|].
  destruct (any_class "pw-engine" _); [|reflexivity].
  destruct (parse_engine_specs (text spec)) as [[f e] t].
  destruct k; try congruence; reflexivity.
Qed.

Lemma spec_step_own k acc acc' spec :
  classify spec = Some k →
  specs_fields k (spec_step acc spec) = specs_fields k (spec_step acc' spec).
Proof.
  unfold classify, spec_step. intros Hk.
  destruct (any_class "pw-mileage" _); [injection Hk as <-; reflexivity|].
  destruct (any_class "pw-color" _); [injection Hk as <-; reflexivity|].
  destruct (any_class "pw-registration" _); [injection Hk as <-; reflexivity|].
  destruct (any_class "pw-engine" _); [injection Hk as <-|discriminate Hk].
  destruct (parse_engine_specs (text spec)) as [[f e] t]. reflexivity.
Qed.

Lemma fold_specs_own_kind k items : ∀ acc acc',
  specs_fields k acc = specs_fields k acc' →
  specs_fields k (fold_left spec_step items acc) =
    specs_fields k (fold_left spec_step (filter (λ x, classify x = Some k) items) acc').
Proof.
  induction items as [|x items IH]; intros acc acc' Hacc; [exact Hacc|].
  cbn [fold_left]. destruct (decide (classify x = Some k)) as [Hk|Hk].
  - rewrite filter_cons_True by exact Hk. cbn [fold_left].
    apply IH. apply spec_step_own, Hk.
  - rewrite filter_cons_False by exact Hk.
    apply IH. rewrite spec_step_frame by exact Hk. exact Hacc.
Qed.

Lemma filter_kind_none k (items : list spec_li) :
  (∀ x, x ∈ items → classify x ≠ Some k) →
  filter (λ x, classify x = Some k) items = [].
Proof.
  induction items as [|x items IH]; intros H; [reflexivity|].
  rewrite filter_cons_False by (apply H, list_elem_of_here).
  apply IH. intros y Hy. apply H, list_elem_of_further, Hy.
Qed.

Lemma extract_listing_specs li c k :
  extract_listing li = Ok (Some c) →
  car_fields k c = specs_fields k (read_specs (ad_specs li)).
Proof.
  intros Hc.
  apply extract_listing_inv in Hc as (s & items & name & description & offer_items & H).
  destruct H as (_ & _ & _ & _ & _ & _ & ->). destruct k; reflexivity.
Qed.

(** X6.  The fields of a kind in a record depend on the spec items of that
    kind alone: items of the other kinds and items that fall under no kind
    can be taken out of the list without changing them.  An item that
    carries the tokens of two kinds counts for the first one only. *)
Theorem fields_depend_on_own_kind li c k items :
  extract_listing li = Ok (Some c) →
  ad_specs li = Some items →
  car_fields k c =
    specs_fields k (read_specs (Some (filter (λ x, classify x = Some k) items))).
Proof.
  intros Hc Hitems. rewrite (extract_listing_specs li c k Hc), Hitems.
  cbn [read_specs]. apply fold_specs_own_kind. reflexivity.
Qed.

(** X7.  A kind without an item leaves its fields empty: when the listing
    has no spec list, or no item of the list falls under the kind, the
    fields of the kind are empty strings. *)
Theorem missing_kind_leaves_fields_empty li c k :
  extract_listing li = Ok (Some c) →
  (∀ items x, ad_specs li = Some items → x ∈ items → classify x ≠ Some k) →
  Forall (λ field, field = "") (car_fields k c).
Proof.
  intros Hc Hnone. rewrite (extract_listing_specs li c k Hc).
  destruct (ad_specs li) as [items|] eqn:Hspecs; cbn [read_specs].
  - rewrite (fold_specs_own_kind k items no_specs no_specs eq_refl).
    rewrite filter_kind_none by (intros x Hx; apply (Hnone items x eq_refl Hx)).
    destruct k; repeat constructor.
  - destruct k; repeat constructor.
Qed.

(** ** Stripped text *)

Lemma lstrip_starts s : starts_with_space (Py.lstrip s) = false.
Proof.
  induction s as [|c s IH]; [reflexivity|].
  cbn [Py.lstrip]. destruct (Py.isspace c) eqn:Hc; [exact IH | exact Hc].
Qed.

Lemma lstrip_snoc a c :
  Py.isspace c = false → ∃ u, Py.lstrip (a +:+ String c "") = u +:+ String c "".
Proof.
  intros Hc. induction a as [|x a IH].
  - exists "". cbn [Py.lstrip]. change ("" +:+ String c "") with (String c "").
    cbn [Py.lstrip]. rewrite Hc. reflexivity.
  - rewrite str_app_cons. cbn [Py.lstrip].
    destruct (Py.isspace x); [exact IH|]. exists (String x a). reflexivity.
Qed.

Lemma rstrip_starts t :
  starts_with_space t = false → starts_with_space (Py.rstrip t) = false.
Proof.
  destruct t as [|c t]; intros Hc; [reflexivity|].
  cbn [starts_with_space] in Hc. unfold Py.rstrip. rewrite rev_cons.
  destruct (lstrip_snoc (String.rev t) c Hc) as [u ->].
  rewrite rev_append. exact Hc.
Qed.

Lemma strip_trimmed s : outer_space (Py.strip s) = false.
Proof.
  unfold outer_space, Py.strip.
  rewrite rstrip_starts by apply lstrip_starts.
  unfold Py.rstrip. rewrite rev_involutive. apply lstrip_starts.
Qed.

Lemma lstrip_fixed s : starts_with_space s = false → Py.lstrip s = s.
Proof. destruct s as [|c s]; [reflexivity|]. cbn. intros ->. reflexivity. Qed.

Lemma strip_fixed s : outer_space s = false → Py.strip s = s.
Proof.
  unfold outer_space, Py.strip, Py.rstrip. intros H.
  apply orb_false_iff in H as [Hl Hr].
  rewrite (lstrip_fixed s Hl), (lstrip_fixed _ Hr). apply rev_involutive.
Qed.

Lemma parse_engine_specs_parts s :
  parse_engine_specs s =
    (default "" ((Py.strip <$> Py.split " . " s) !! 0%nat),
     default "" ((Py.strip <$> Py.split " . " s) !! 1%nat),
     default "" ((Py.strip <$> Py.split " . " s) !! 2%nat)).
Proof.
  unfold parse_engine_specs.
  destruct (Py.strip <$> Py.split " . " s) as [|a [|b [|c rest]]]; reflexivity.
Qed.

Lemma stripped_part_trimmed (parts : list string) i :
  outer_space (default "" ((Py.strip <$> parts) !! i)) = false.
Proof.
  rewrite list_lookup_fmap. destruct (parts !! i); [apply strip_trimmed | reflexivity].
Qed.

Lemma parse_engine_specs_trimmed s :
  Forall (λ x, outer_space x = false)
    [ fst (fst (parse_engine_specs s)); snd (fst (parse_engine_specs s));
      snd (parse_engine_specs s) ].
Proof.
  rewrite parse_engine_specs_parts. cbn [fst snd].
  repeat constructor; apply stripped_part_trimmed.
Qed.

Lemma spec_step_trimmed acc spec :
  Forall (λ x, outer_space x = false) (specs_fields Engine acc) →
  Forall (λ x, outer_space x = false) (specs_fields Engine (spec_step acc spec)).
Proof.
  intros Hacc. destruct (decide (classify spec = Some Engine)) as [Hk|Hk].
  - pose proof (spec_step_hit Engine acc spec Hk) as H. cbn [specs_hold] in H.
    pose proof (parse_engine_specs_trimmed (text spec)) as Ht.
    rewrite <- H in Ht. exact Ht.
  - rewrite spec_step_frame by exact Hk. exact Hacc.
Qed.

Lemma fold_specs_trimmed items : ∀ acc,
  Forall (λ x, outer_space x = false) (specs_fields Engine acc) →
  Forall (λ x, outer_space x = false) (specs_fields Engine (fold_left spec_step items acc)).
Proof.
  induction items as [|x items IH]; intros acc Hacc; [exact Hacc|].
  cbn [fold_left]. apply IH, spec_step_trimmed, Hacc.
Qed.

(** X8.  The texts that the code strips carry no whitespace at either end:
    the three results of [parse_engine_specs] for every input, and in every
    record the title and the three engine fields.  A text that has none to
    begin with is left as it is. *)
Theorem stripped_fields_are_trimmed :
  (∀ s, Forall (λ x, outer_space x = false)
          [ fst (fst (parse_engine_specs s)); snd (fst (parse_engine_specs s));
            snd (parse_engine_specs s) ])
  ∧ (∀ li c, extract_listing li = Ok (Some c) →
             outer_space (title c) = false
             ∧ Forall (λ x, outer_space x = false) (car_fields Engine c))
  ∧ (∀ s, outer_space s = false → Py.strip s = s).
Proof.
  split; [exact parse_engine_specs_trimmed|]. split; [|exact strip_fixed].
  intros li c Hc. split.
  - apply extract_listing_inv in Hc as (s & items & name & description & offer_items & H).
    destruct H as (_ & _ & _ & _ & _ & _ & ->). apply strip_trimmed.
  - rewrite (extract_listing_specs li c Engine Hc).
    destruct (ad_specs li) as [items|]; cbn [read_specs].
    + apply fold_specs_trimmed. repeat constructor.
    + repeat constructor.
Qed.

(** ** Year and price *)

(** X9.  The year of a record is the model date of the block: the decimal
    text of an int, any other number as a string, and what is not a number
    as it is (the empty string when the key is missing).  Turning a number
    into a string changes nothing in the file: the cell written for the year
    is the cell that the raw model date would give. *)
Theorem year_column li c :
  extract_listing li = Ok (Some c) →
  ∃ s items,
    ld_json li = Some {| script_string := Some s |}
    ∧ json_loads s = Some (VDict items)
    ∧ let raw := default (VStr "") (lookup_key "modelDate" items) in
      csv_cell (year c) = csv_cell raw
      ∧ (∀ n, raw = VInt n → year c = VStr (pretty n))
      ∧ (is_int_or_float raw = true → year c = VStr (Fmt.str raw))
      ∧ (is_int_or_float raw = false → year c = raw)
      ∧ (lookup_key "modelDate" items = None → year c = VStr "").
Proof.
  intros Hc.
  apply extract_listing_inv in Hc as (s & items & name & description & offer_items & H).
  destruct H as (Hld & _ & Hloads & _ & _ & _ & ->).
  exists s, items. split; [exact Hld|]. split; [exact Hloads|]. cbn [year].
  split; [|split; [|split; [|split]]].
  - destruct (default (VStr "") (lookup_key "modelDate" items)); reflexivity.
  - intros n ->. reflexivity.
  - intros ->. reflexivity.
  - intros ->. reflexivity.
  - intros ->. reflexivity.
Qed.

Lemma without_commas_app a b :
  without_commas (a +:+ b) = without_commas a +:+ without_commas b.
Proof.
  induction a as [|c a IH]; [reflexivity|].
  rewrite str_app_cons. cbn [without_commas].
  destruct (decide (c = ","%char)); [exact IH|]. rewrite str_app_cons, IH. reflexivity.
Qed.

Lemma without_commas_rev s : without_commas (String.rev s) = String.rev (without_commas s).
Proof.
  induction s as [|c s IH]; [reflexivity|].
  rewrite rev_cons, without_commas_app, IH. cbn [without_commas].
  destruct (decide (c = ","%char)).
  - change (without_commas "") with "". apply str_app_nil_r.
  - rewrite rev_cons. reflexivity.
Qed.

Lemma group_rev_commas ds : ∀ i, without_commas (Fmt.group_rev ds i) = without_commas ds.
Proof.
  induction ds as [|d ds IH]; intros i; [reflexivity|].
  destruct i as [|[|[|[|i]]]]; cbn [Fmt.group_rev without_commas];
    destruct (decide (d = ","%char)); rewrite IH; reflexivity.
Qed.

Lemma group_digits_commas s : without_commas (Fmt.group_digits s) = without_commas s.
Proof.
  unfold Fmt.group_digits.
  rewrite without_commas_rev, group_rev_commas, without_commas_rev. apply rev_involutive.
Qed.

Lemma pretty_N_char_no_comma (y : N) : pretty_N_char y ≠ ","%char.
Proof. unfold pretty_N_char. repeat case_match; discriminate. Qed.

Lemma pretty_N_go_commas (x : N) : ∀ s,
  without_commas (pretty_N_go x s) = pretty_N_go x (without_commas s).
Proof.
  induction (N.lt_wf_0 x) as [x _ IH]. intros s.
  destruct (decide (x = 0)%N) as [->|Hx]; [reflexivity|].
  rewrite !(pretty_N_go_step x) by lia.
  rewrite (IH (x `div` 10)%N) by (apply N.div_lt; lia).
  cbn [without_commas].
  destruct (decide (pretty_N_char (x `mod` 10) = ","%char)) as [Hc|_]; [|reflexivity].
  destruct (pretty_N_char_no_comma _ Hc).
Qed.

Lemma int_grouped_commas (n : Z) : without_commas (Fmt.int_grouped n) = pretty n.
Proof.
  assert (Hpos : ∀ p, without_commas (pretty (Z.pos p)) = pretty (Z.pos p)).
  { intros p. rewrite pretty_Z_nonneg, pretty_N_pos by lia. apply pretty_N_go_commas. }
  destruct n as [|p|p]; unfold Fmt.int_grouped.
  - reflexivity.
  - rewrite group_digits_commas. apply Hpos.
  - rewrite without_commas_app, group_digits_commas, Hpos. reflexivity.
Qed.

Lemma int_grouped_inj (n m : Z) : Fmt.int_grouped n = Fmt.int_grouped m → n = m.
Proof.
  intros H. apply (f_equal without_commas) in H.
  rewrite !int_grouped_commas in H. exact (pretty_Z_inj _ _ H).
Qed.

(** X10.  An int price can be read back from the price field: the field is
    the currency, a space and the grouped price; taking the commas out of
    the grouped price gives its plain decimal text; and no other int is
    grouped to the same text. *)
Theorem int_price_reads_back li c s items offer_items n :
  ld_json li = Some {| script_string := Some s |} →
  json_loads s = Some (VDict items) →
  offers_of items = VDict offer_items →
  lookup_key "price" offer_items = Some (VInt n) →
  extract_listing li = Ok (Some c) →
  price c =
    Fmt.str (default (VStr "PKR") (lookup_key "priceCurrency" offer_items)) +:+ " " +:+
      Fmt.int_grouped n
  ∧ without_commas (Fmt.int_grouped n) = pretty n
  ∧ (∀ m, Fmt.int_grouped m = Fmt.int_grouped n → m = n).
Proof.
  intros Hld Hloads Hoffers Hprice Hc.
  apply extract_listing_inv in Hc as (s' & items' & name & description & offer_items' & H).
  destruct H as (Hld' & _ & Hloads' & _ & _ & Hoffers' & ->).
  rewrite Hld in Hld'. injection Hld' as <-.
  rewrite Hloads in Hloads'. injection Hloads' as <-.
  rewrite Hoffers in Hoffers'. injection Hoffers' as <-.
  cbn [price]. rewrite Hprice. cbn [default is_int_or_float Fmt.grouped].
  split; [reflexivity|]. split; [apply int_grouped_commas|].
  intros m Hm. apply int_grouped_inj, Hm.
Qed.

(** ** The files of a run *)

Lemma backup_file_inj p q : backup_file p = backup_file q → p = q.
Proof.
  unfold backup_file. intros H. apply String.app_inj in H.
  apply (f_equal String.rev) in H. rewrite !rev_append in H.
  apply String.app_inj in H. apply (f_equal String.rev) in H.
  rewrite !rev_involutive in H. exact (pretty_Z_inj _ _ H).
Qed.

Lemma scrape_page_no_save p : saves (fst (scrape_page p)) = [].
Proof. apply attempts_from_no_save. Qed.

Lemma returned_eq p cars : snd (scrape_page p) = Returns cars → returned p = cars.
Proof. unfold returned. intros ->. reflexivity. Qed.

Lemma collected_through_first st :
  collected_through st (page st) = all_cars st ++ returned (page st).
Proof.
  unfold collected_through. replace (page st - page st + 1) with 1 by lia.
  change (seqZ (page st) 1) with [0 + page st]. cbn [fmap list_fmap concat].
  rewrite (right_id_L [] (++)). reflexivity.
Qed.

Lemma collected_through_next st cars p :
  returned (page st) = cars → page st < p →
  collected_through (next_state st cars) p = collected_through st p.
Proof.
  intros Hcars Hp. unfold collected_through.
  rewrite next_state_page, next_state_all_cars.
  rewrite (seqZ_cons (page st)) by lia. cbn [fmap list_fmap concat].
  rewrite Hcars, <- (assoc_L (++)).
  replace (Z.pred (p - page st + 1)) with (p - (page st + 1) + 1) by lia.
  reflexivity.
Qed.

Lemma checkpoint_saves_iff st cars name rows :
  returned (page st) = cars →
  (name, rows) ∈ saves (checkpoint st cars) ↔
    page st mod SAVE_INTERVAL = 0 ∧ cars ≠ []
    ∧ name = backup_file (page st) ∧ rows = csv_of (collected_through st (page st)).
Proof.
  intros Hcars. rewrite collected_through_first, Hcars. unfold checkpoint.
  destruct cars as [|c cars].
  - cbn [saves]. split; [intros H; inversion H | intros (_ & H & _); congruence].
  - destruct (page st mod SAVE_INTERVAL =? 0) eqn:Hmod.
    + apply Z.eqb_eq in Hmod. cbn [save_to_csv saves]. rewrite list_elem_of_singleton.
      split.
      * intros H. injection H as -> ->. repeat split; [exact Hmod | discriminate].
      * intros (_ & _ & -> & ->). reflexivity.
    + apply Z.eqb_neq in Hmod. cbn [saves].
      split; [intros H; inversion H | intros (H & _); contradiction].
Qed.

(** The files that the loop writes, from any state on. *)
Lemma while_loop_saves_iff fuel : ∀ st name rows,
  (name, rows) ∈ saves (fst (while_loop fuel st)) ↔
    ∃ p, page st ≤ p < page (snd (snd (while_loop fuel st)))
         ∧ p mod SAVE_INTERVAL = 0 ∧ returned p ≠ []
         ∧ name = backup_file p ∧ rows = csv_of (collected_through st p).
Proof.
  assert (Hstay : ∀ (st : state) name rows,
            (name, rows) ∈ @nil (string * list (list string)) ↔
              ∃ p, page st ≤ p < page st
                   ∧ p mod SAVE_INTERVAL = 0 ∧ returned p ≠ []
                   ∧ name = backup_file p ∧ rows = csv_of (collected_through st p)).
  { intros st name rows. split; [intros H; inversion H | intros (p & Hp & _); lia]. }
  induction fuel as [|fuel IH]; intros st name rows; [apply Hstay|].
  rewrite while_loop_unfold. destruct (page st <=? MAX_PAGES); [|apply Hstay].
  destruct (snd (scrape_page (page st))) as [cars|sig] eqn:Hr; cbn [fst snd].
  2:{ rewrite scrape_page_no_save. apply Hstay. }
  pose proof (returned_eq _ _ Hr) as Hcars.
  pose proof (while_loop_page_mono fuel (next_state st cars)) as Hmono.
  rewrite next_state_page in Hmono.
  rewrite !saves_app, scrape_page_no_save. cbn [app saves].
  rewrite elem_of_app, (checkpoint_saves_iff st cars name rows Hcars), IH.
  rewrite next_state_page. split.
  - intros [(Hmod & Hne & -> & ->)|(p & Hp & Hmod & Hne & -> & ->)].
    + exists (page st). repeat split; try lia; try assumption. congruence.
    + exists p. rewrite (collected_through_next st cars p Hcars) by lia.
      repeat split; try lia; assumption.
  - intros (p & Hp & Hmod & Hne & -> & ->).
    destruct (decide (p = page st)) as [->|Hother].
    + left. repeat split; try assumption. congruence.
    + right. exists p. rewrite (collected_through_next st cars p Hcars) by lia.
      repeat split; try lia; assumption.
Qed.

Lemma collected_through_initial p :
  collected_through initial p = concat (returned <$> seqZ 1 p).
Proof.
  unfold collected_through. cbn [initial all_cars page app].
  replace (p - 1 + 1) with p by lia. reflexivity.
Qed.

Lemma finalize_saves_iff cars name rows :
  (name, rows) ∈ saves (finalize cars) ↔
    name = final_file ∧ cars ≠ [] ∧ rows = csv_of cars.
Proof.
  destruct cars as [|c cars]; cbn [finalize save_to_csv saves].
  - split; [intros H; inversion H | intros (_ & H & _); congruence].
  - rewrite list_elem_of_singleton. split.
    + intros H. injection H as -> ->. repeat split. discriminate.
    + intros (-> & _ & ->). reflexivity.
Qed.

(** The files of a whole run: the backups of the loop and the final file. *)
Lemma main_saves_iff name rows :
  EvSave name rows ∈ fst main ↔
    (∃ p, 1 ≤ p < page (snd (snd main)) ∧ p mod SAVE_INTERVAL = 0 ∧ returned p ≠ []
          ∧ name = backup_file p ∧ rows = csv_of (concat (returned <$> seqZ 1 p)))
    ∨ (name = final_file ∧ all_cars (snd (snd main)) ≠ []
       ∧ rows = csv_of (all_cars (snd (snd main)))).
Proof.
  rewrite <- saves_elem_of, main_unfold. cbn [fst snd].
  rewrite saves_app, elem_of_app, while_loop_saves_iff, finalize_saves_iff.
  cbn [initial page].
  split; (intros [(p & Hp & Hmod & Hne & -> & ->)|H]; [left|right; exact H]);
    exists p; [rewrite <- collected_through_initial | rewrite collected_through_initial];
    repeat split; try lia; assumption.
Qed.

(** X12.  No file of a run is written over with other contents: two writes
    to the same name in a run write the same rows.  Backups of different
    pages have different names, and no backup has the name of the final
    file. *)
Theorem no_file_overwritten_with_other_rows :
  (∀ name rows rows',
      EvSave name rows ∈ fst main → EvSave name rows' ∈ fst main → rows = rows')
  ∧ (∀ p q, backup_file p = backup_file q → p = q)
  ∧ (∀ p, backup_file p ≠ final_file).
Proof.
  split; [|split; [exact backup_file_inj | exact backup_is_not_final]].
  intros name rows rows' H H'. apply main_saves_iff in H, H'.
  destruct H as [(p & _ & _ & _ & Hname & ->)|(Hname & _ & ->)];
    destruct H' as [(q & _ & _ & _ & Hname' & ->)|(Hname' & _ & ->)].
  - rewrite Hname in Hname'. apply backup_file_inj in Hname'. subst q. reflexivity.
  - rewrite Hname in Hname'. destruct (backup_is_not_final _ Hname').
  - rewrite Hname' in Hname. destruct (backup_is_not_final _ Hname).
  - reflexivity.
Qed.

Lemma csv_of_prefix cars more : csv_of cars `prefix_of` csv_of (cars ++ more).
Proof. exists (csv_row <$> more). unfold csv_of. rewrite fmap_app. reflexivity. Qed.

Lemma csv_of_rectangular cars : Forall (λ row, length row = 11%nat) (csv_of cars).
Proof.
  unfold csv_of. constructor; [reflexivity|].
  apply Forall_fmap, Forall_forall. intros c _. reflexivity.
Qed.

(** X13.  Every file of a run is a table of eleven columns, the header row
    first and then one row per record, and every file is the beginning of
    what the final collection gives: the records of a backup are all in the
    collection at the end, at the same places and in the same order. *)
Theorem files_are_prefixes_of_the_collection name rows :
  EvSave name rows ∈ fst main →
  Forall (λ row, length row = 11%nat) rows
  ∧ (∃ cars, rows = fieldnames :: (csv_row <$> cars)
             ∧ cars `prefix_of` all_cars (snd (snd main)))
  ∧ rows `prefix_of` csv_of (all_cars (snd (snd main))).
Proof.
  intros H. apply main_saves_iff in H.
  pose proof (while_loop_all_cars main_fuel initial) as Hall. cbn zeta in Hall.
  rewrite main_unfold. rewrite main_unfold in H. cbn [fst snd] in *.
  cbn [initial all_cars page app] in Hall.
  set (st := snd (snd (while_loop main_fuel initial))) in *.
  destruct H as [(p & Hp & _ & _ & _ & ->)|(_ & _ & ->)].
  - assert (Hsplit : all_cars st =
              concat (returned <$> seqZ 1 p) ++
                concat (returned <$> seqZ (1 + p) (page st - 1 - p))).
    { rewrite Hall. replace (page st - 1) with (p + (page st - 1 - p)) at 1 by lia.
      rewrite seqZ_app, fmap_app, concat_app by lia. reflexivity. }
    split; [apply csv_of_rectangular|]. split.
    + exists (concat (returned <$> seqZ 1 p)). split; [reflexivity|].
      rewrite Hsplit. apply prefix_app_r. reflexivity.
    + rewrite Hsplit. apply csv_of_prefix.
  - split; [apply csv_of_rectangular|]. split; [|reflexivity].
    exists (all_cars st). split; reflexivity.
Qed.

(** ** The pages of a run *)

Lemma pages_fetched_app evs evs' :
  pages_fetched (evs ++ evs') = pages_fetched evs ++ pages_fetched evs'.
Proof.
  induction evs as [|[]]; cbn [app pages_fetched]; [reflexivity| | |];
    rewrite ?IHevs; reflexivity.
Qed.

Lemma pages_of_scrape_events p evs :
  Forall (scrape_event p) evs → pages_fetched evs = replicate (attempts_made evs) p.
Proof.
  induction 1 as [|ev evs Hev _ IH]; [reflexivity|].
  destruct ev as [q t|d|name rows]; cbn [pages_fetched attempts_made replicate].
  - destruct Hev as [-> _]. rewrite IH. reflexivity.
  - exact IH.
  - destruct Hev.
Qed.

Lemma scrape_page_pages p :
  pages_fetched (fst (scrape_page p)) = replicate (attempts_made (fst (scrape_page p))) p.
Proof. apply pages_of_scrape_events, scrape_page_bounds. Qed.

(** ** Engine specs, back and forth *)

Lemma split_go_first sep f rest : ∀ cur,
  sep ≠ "" →
  (∀ a b, f = a +:+ b → b ≠ "" → Py.startswith sep (b +:+ sep +:+ rest) = false) →
  Py.split_go sep (f +:+ sep +:+ rest) 0 cur =
    (String.rev cur +:+ f) :: Py.split_go sep rest 0 "".
Proof.
  induction f as [|c f IH]; intros cur Hsep Hfree.
  - change ("" +:+ sep +:+ rest) with (sep +:+ rest). rewrite str_app_nil_r.
    destruct sep as [|x sep']; [congruence|]. rewrite str_app_cons.
    cbn [Py.split_go].
    assert (Hstart : Py.startswith (String x sep') (String x (sep' +:+ rest)) = true).
    { apply startswith_spec. exists rest. reflexivity. }
    rewrite Hstart. cbn [String.length Nat.sub]. rewrite Nat.sub_0_r, split_go_skip.
    reflexivity.
  - rewrite str_app_cons. cbn [Py.split_go].
    assert (Hstart : Py.startswith sep (String c (f +:+ sep +:+ rest)) = false).
    { rewrite <- str_app_cons. apply (Hfree "" (String c f)); [reflexivity | discriminate]. }
    rewrite Hstart, IH.
    + rewrite rev_cons, str_app_assoc. reflexivity.
    + exact Hsep.
    + intros a b -> Hb. apply (Hfree (String c a) b); [reflexivity | exact Hb].
Qed.

(** The delimiter does not begin inside a part, the end of the part and the
    beginning of the delimiter after it taken together. *)
Lemma delimiter_not_inside f rest :
  ¬ substring_of " . " (f +:+ " .") →
  ∀ a b, f = a +:+ b → b ≠ "" → Py.startswith " . " (b +:+ " . " +:+ rest) = false.
Proof.
  intros Hfree a b -> Hb.
  destruct (Py.startswith " . " (b +:+ " . " +:+ rest)) eqn:E; [|reflexivity].
  exfalso. apply startswith_spec in E as [x Hx].
  destruct b as [|c1 [|c2 [|c3 b']]]; [congruence| | |].
  - rewrite !str_app_cons in Hx. injection Hx as _ H _. discriminate H.
  - rewrite !str_app_cons in Hx. injection Hx as -> -> _.
    apply Hfree. exists a, ".". rewrite !str_app_assoc. reflexivity.
  - rewrite !str_app_cons in Hx. injection Hx as -> -> -> _.
    apply Hfree. exists a, (b' +:+ " ."). rewrite !str_app_assoc. reflexivity.
Qed.

(** X16.  [parse_engine_specs] gives back the three parts of a text put
    together with the delimiter " . ", when the parts carry no whitespace at
    their ends and the delimiter occurs nowhere but between them: not in the
    last part, and not in one of the first two followed by a space and a
    dot. *)
Theorem engine_specs_round_trip f e t :
  outer_space f = false → outer_space e = false → outer_space t = false →
  ¬ substring_of " . " (f +:+ " .") →
  ¬ substring_of " . " (e +:+ " .") →
  ¬ substring_of " . " t →
  parse_engine_specs (f +:+ " . " +:+ e +:+ " . " +:+ t) = (f, e, t).
Proof.
  intros Hf He Ht Hfree_f Hfree_e Hfree_t.
  rewrite parse_engine_specs_parts. unfold Py.split.
  rewrite split_go_first by (try discriminate; apply delimiter_not_inside, Hfree_f).
  rewrite split_go_first by (try discriminate; apply delimiter_not_inside, Hfree_e).
  rewrite split_go_no_separator by (apply no_separator_contains, Hfree_t).
  cbn [fmap list_fmap lookup list_lookup default]. change (String.rev "" +:+ ?x) with x.
  rewrite (strip_fixed f Hf), (strip_fixed e He), (strip_fixed t Ht). reflexivity.
Qed.

(** ** The driver in its environment *)

Lemma seqZ_one p : seqZ p 1 = [p].
Proof. rewrite seqZ_cons by lia. rewrite seqZ_nil by lia. reflexivity. Qed.

Lemma writerows_all rows :
  forallb row_encodable rows = true → writerows rows = (rows, false).
Proof.
  induction rows as [|row rows IH]; [reflexivity|].
  cbn [forallb writerows]. intros H. apply andb_true_iff in H as [-> Hrows].
  rewrite (IH Hrows). reflexivity.
Qed.

Lemma save_to_csv_utf8_unfold cars name :
  save_to_csv_utf8 cars name =
    ([EvSave name (csv_written cars)], snd (writerows (rows_of cars))).
Proof.
  unfold save_to_csv_utf8, csv_written, rows_of.
  destruct (writerows (csv_row <$> cars)). reflexivity.
Qed.

Lemma loop_body_unfold st :
  loop_body st =
    match snd (scrape_page (page st)) with
    | Raised sig =>
        (fst (scrape_page (page st)), (Some (FromScrape, kind_of_signal sig), st))
    | Returns cars =>
        if snd (checkpoint_env st cars) then
          (fst (scrape_page (page st)) ++ fst (checkpoint_env st cars),
           (Some (FromSave, IsException), stalled st cars))
        else
          (fst (scrape_page (page st)) ++ fst (checkpoint_env st cars) ++
             [EvSleep (page_sleep cars)],
           (pair FromSleep <$> sleep_raises (page st), next_state st cars))
    end.
Proof.
  unfold loop_body. destruct (scrape_page (page st)) as [fetched [cars|sig]]; [|reflexivity].
  cbn [fst snd]. destruct cars as [|c cars]; [reflexivity|].
  cbn [checkpoint_env]. destruct (page st mod SAVE_INTERVAL =? 0).
  - destruct (save_to_csv_utf8 _ _) as [saved []]; reflexivity.
  - reflexivity.
Qed.

(** Induction on the iterations of the loop. *)
Lemma while_loop_env_ind (P : state → list event → loop_end → state → Prop) :
  (∀ st, P st [] StillRunning st) →
  (∀ st, MAX_PAGES < page st → P st [] LoopDone st) →
  (∀ st evs o e st',
      page st ≤ MAX_PAGES → loop_body st = (evs, (Some (o, e), st')) →
      P st evs (LoopRaised o e) st') →
  (∀ st evs st' evs' e' st'',
      page st ≤ MAX_PAGES → loop_body st = (evs, (None, st')) →
      P st' evs' e' st'' → P st (evs ++ evs') e' st'') →
  ∀ fuel st,
    P st (fst (while_loop_env fuel st)) (fst (snd (while_loop_env fuel st)))
      (snd (snd (while_loop_env fuel st))).
Proof.
  intros Hrun Hdone Hraise Hstep. induction fuel as [|fuel IH]; intros st; [apply Hrun|].
  cbn [while_loop_env]. destruct (page st <=? MAX_PAGES) eqn:Hpage.
  - apply Z.leb_le in Hpage.
    destruct (loop_body st) as [evs [[[o e]|] st']] eqn:Hbody.
    + cbn [fst snd]. apply (Hraise st evs o e st' Hpage Hbody).
    + specialize (IH st'). destruct (while_loop_env fuel st') as [evs' [e' st'']].
      cbn [fst snd] in *. apply (Hstep st evs st' evs' e' st'' Hpage Hbody IH).
  - apply Z.leb_gt in Hpage. cbn [fst snd]. apply Hdone, Hpage.
Qed.

(** What one iteration does, case by case. *)
Lemma loop_body_cases st evs raised st' :
  loop_body st = (evs, (raised, st')) →
  (∃ sig, snd (scrape_page (page st)) = Raised sig
          ∧ evs = fst (scrape_page (page st))
          ∧ raised = Some (FromScrape, kind_of_signal sig) ∧ st' = st)
  ∨ (∃ cars, snd (scrape_page (page st)) = Returns cars
             ∧ cars ≠ [] ∧ page st mod SAVE_INTERVAL = 0
             ∧ snd (writerows (rows_of (all_cars st ++ cars))) = true
             ∧ evs = fst (scrape_page (page st)) ++
                       [EvSave (backup_file (page st)) (csv_written (all_cars st ++ cars))]
             ∧ raised = Some (FromSave, IsException) ∧ st' = stalled st cars)
  ∨ (∃ cars, snd (scrape_page (page st)) = Returns cars
             ∧ snd (checkpoint_env st cars) = false
             ∧ evs = fst (scrape_page (page st)) ++ fst (checkpoint_env st cars) ++
                       [EvSleep (page_sleep cars)]
             ∧ raised = pair FromSleep <$> sleep_raises (page st)
             ∧ st' = next_state st cars).
Proof.
  rewrite loop_body_unfold. intros H.
  destruct (snd (scrape_page (page st))) as [cars|sig] eqn:Hr.
  - destruct (snd (checkpoint_env st cars)) eqn:Hfail.
    + right. left. exists cars. injection H as <- <- <-.
      unfold checkpoint_env in *. destruct cars as [|c cars]; [discriminate Hfail|].
      destruct (page st mod SAVE_INTERVAL =? 0) eqn:Hmod; [|discriminate Hfail].
      apply Z.eqb_eq in Hmod. rewrite save_to_csv_utf8_unfold in *. cbn [fst snd] in *.
      repeat split; try assumption; try reflexivity. discriminate.
    + right. right. exists cars. injection H as <- <- <-.
      repeat split; try reflexivity; assumption.
  - left. exists sig. injection H as <- <- <-. repeat split; reflexivity.
Qed.


(** The loop ends for good when it has one check per page left and one
    more. *)
Lemma while_loop_env_finishes fuel : ∀ st,
  MAX_PAGES + 1 - page st < Z.of_nat fuel → 0 < Z.of_nat fuel →
  fst (snd (while_loop_env fuel st)) ≠ StillRunning.
Proof.
  induction fuel as [|fuel IH]; intros st Hfuel Hpos; [lia|].
  cbn [while_loop_env]. destruct (page st <=? MAX_PAGES) eqn:Hpage; [|discriminate].
  apply Z.leb_le in Hpage.
  destruct (loop_body st) as [evs [[[o e]|] st']] eqn:Hbody; [discriminate|].
  apply loop_body_cases in Hbody
    as [(sig & _ & _ & H & _)|[(cars & _ & _ & _ & _ & _ & H & _)|(cars & _ & _ & _ & _ & ->)]];
    try discriminate H.
  specialize (IH (next_state st cars)). rewrite next_state_page in IH.
  destruct (while_loop_env fuel (next_state st cars)) as [evs' [e' st'']].
  cbn [fst snd] in *. apply IH; unfold MAX_PAGES in *; lia.
Qed.

(** The page counter and the collection at the end. *)
Lemma while_loop_env_all_cars fuel st :
  let e := fst (snd (while_loop_env fuel st)) in
  let st' := snd (snd (while_loop_env fuel st)) in
  page st ≤ page st'
  ∧ all_cars st' =
      all_cars st ++
        concat (returned <$> seqZ (page st) (page st' - page st + collected_ahead e)).
Proof.
  cbn zeta.
  apply (while_loop_env_ind (λ st evs e st',
    page st ≤ page st'
    ∧ all_cars st' =
        all_cars st ++
          concat (returned <$> seqZ (page st) (page st' - page st + collected_ahead e)))).
  - intros st0. split; [lia|]. cbn [collected_ahead]. rewrite Z.add_0_r. apply no_pages_no_cars.
  - intros st0 _. split; [lia|]. cbn [collected_ahead]. rewrite Z.add_0_r. apply no_pages_no_cars.
  - intros st0 evs o e st' _ Hbody.
    apply loop_body_cases in Hbody
      as [(sig & _ & _ & H & ->)|[(cars & Hr & _ & _ & _ & _ & H & ->)|(cars & Hr & _ & _ & H & ->)]].
    + injection H as -> ->. split; [lia|]. cbn [collected_ahead]. rewrite Z.add_0_r.
      apply no_pages_no_cars.
    + injection H as -> ->. cbn [stalled page all_cars collected_ahead]. split; [lia|].
      replace (page st0 - page st0 + 1) with 1 by lia.
      rewrite seqZ_one. cbn [fmap list_fmap concat].
      rewrite (right_id_L [] (++)), (returned_eq _ _ Hr). reflexivity.
    + destruct (sleep_raises (page st0)) as [k|]; [|discriminate H]. injection H as -> ->.
      rewrite next_state_page, next_state_all_cars. cbn [collected_ahead]. split; [lia|].
      replace (page st0 + 1 - page st0 + 0) with 1 by lia.
      rewrite seqZ_one. cbn [fmap list_fmap concat].
      rewrite (right_id_L [] (++)), (returned_eq _ _ Hr). reflexivity.
  - intros st0 evs st' evs' e' st'' _ Hbody [Hmono IH].
    apply loop_body_cases in Hbody
      as [(sig & _ & _ & H & _)|[(cars & _ & _ & _ & _ & _ & H & _)|(cars & Hr & _ & _ & _ & ->)]];
      try discriminate H.
    rewrite next_state_page in Hmono, IH. rewrite next_state_all_cars in IH.
    split; [lia|]. rewrite IH.
    assert (Hpos : 0 ≤ collected_ahead e') by (destruct e' as [| |[] ?]; cbn; lia).
    rewrite (seqZ_cons (page st0)) by lia. cbn [fmap list_fmap concat].
    rewrite (returned_eq _ _ Hr), <- (assoc_L (++)).
    replace (Z.pred (page st'' - page st0 + collected_ahead e'))
      with (page st'' - (page st0 + 1) + collected_ahead e') by lia.
    reflexivity.
Qed.



Lemma finalize_env_unfold cars :
  finalize_env cars =
    match cars with
    | [] => ([], false)
    | _ => ([EvSave final_file (csv_written cars)], snd (writerows (rows_of cars)))
    end.
Proof. destruct cars; [reflexivity|]. apply save_to_csv_utf8_unfold. Qed.

Lemma main_env_unfold :
  main_env =
    {| run_trace :=
         fst (while_loop_env main_fuel initial) ++
           fst (finalize_env (all_cars (snd (snd (while_loop_env main_fuel initial)))));
       run_end := fst (snd (while_loop_env main_fuel initial));
       run_state := snd (snd (while_loop_env main_fuel initial));
       run_leaves :=
         if snd (finalize_env (all_cars (snd (snd (while_loop_env main_fuel initial)))))
         then Some IsException
         else passing (fst (snd (while_loop_env main_fuel initial))) |}.
Proof.
  unfold main_env. destruct (while_loop_env main_fuel initial) as [evs [e st]].
  cbn [fst snd]. destruct (finalize_env (all_cars st)). reflexivity.
Qed.




(** How the loop is left, from any state on. *)
Lemma while_loop_env_end fuel st :
  let e := fst (snd (while_loop_env fuel st)) in
  let st' := snd (snd (while_loop_env fuel st)) in
  page st ≤ page st'
  ∧ left_as e st'
  ∧ (page st ≤ MAX_PAGES + 1 → page st' ≤ MAX_PAGES + 1)
  ∧ (∀ k, e = LoopRaised FromSleep k → page st < page st')
  ∧ (∀ p, page st ≤ p < page st' → ∃ cars, snd (scrape_page p) = Returns cars).
Proof.
  cbn zeta.
  apply (while_loop_env_ind (λ st evs e st',
    page st ≤ page st'
    ∧ left_as e st'
    ∧ (page st ≤ MAX_PAGES + 1 → page st' ≤ MAX_PAGES + 1)
    ∧ (∀ k, e = LoopRaised FromSleep k → page st < page st')
    ∧ (∀ p, page st ≤ p < page st' → ∃ cars, snd (scrape_page p) = Returns cars))).
  - intros st0. repeat split; try lia; try discriminate.
  - intros st0 Hmax. repeat split; try lia; try discriminate; try exact Hmax.
  - intros st0 evs o e st' Hpage Hbody.
    apply loop_body_cases in Hbody
      as [(sig & Hr & _ & H & ->)|[(cars & Hr & Hne & Hmod & Hfail & _ & H & ->)
                                   |(cars & Hr & _ & _ & H & ->)]].
    + injection H as -> ->.
      split; [lia|]. split; [|split; [intros H; exact H|split; [discriminate|intros p Hp; lia]]].
      split; [exact Hpage|]. exists sig. split; [reflexivity | exact Hr].
    + injection H as -> ->. cbn [stalled page left_as all_cars].
      rewrite (returned_eq _ _ Hr).
      split; [lia|]. split; [|split; [intros H; exact H|split; [discriminate|intros p Hp; lia]]].
      split; [exact Hpage|]. split; [reflexivity|]. split; [exact Hmod|].
      split; [exact Hne | exact Hfail].
    + destruct (sleep_raises (page st0)) as [k|] eqn:Hsleep; [|discriminate H].
      injection H as -> ->. cbn [left_as]. rewrite !next_state_page.
      replace (page st0 + 1 - 1) with (page st0) by lia.
      split; [lia|]. split; [split; [lia | exact Hsleep]|].
      split; [intros _; lia|]. split; [intros k' _; lia|].
      intros p Hp. replace p with (page st0) by lia. exists cars. exact Hr.
  - intros st0 evs st' evs' e' st'' Hpage Hbody (Hmono & Hleft & Hmax & Hsleep & Hall).
    apply loop_body_cases in Hbody
      as [(sig & _ & _ & H & _)|[(cars & _ & _ & _ & _ & _ & H & _)
                                 |(cars & Hr & _ & _ & _ & ->)]];
      try discriminate H.
    rewrite next_state_page in *.
    split; [lia|]. split; [exact Hleft|]. split; [intros _; apply Hmax; lia|].
    split; [intros k Hk; specialize (Hsleep k Hk); lia|].
    intros p Hp. destruct (decide (p = page st0)) as [->|Hne]; [exists cars; exact Hr|].
    apply Hall. lia.
Qed.

Lemma checkpoint_env_no_get st cars : pages_fetched (fst (checkpoint_env st cars)) = [].
Proof.
  unfold checkpoint_env. destruct cars; [reflexivity|].
  destruct (_ =? _); [|reflexivity]. rewrite save_to_csv_utf8_unfold. reflexivity.
Qed.

Lemma finalize_env_no_get cars : pages_fetched (fst (finalize_env cars)) = [].
Proof. rewrite finalize_env_unfold. destruct cars; reflexivity. Qed.

Lemma loop_body_pages st :
  pages_fetched (fst (loop_body st)) =
    replicate (attempts_made (fst (scrape_page (page st)))) (page st).
Proof.
  rewrite loop_body_unfold. destruct (snd (scrape_page (page st))) as [cars|sig].
  - destruct (snd (checkpoint_env st cars)); cbn [fst];
      rewrite !pages_fetched_app, checkpoint_env_no_get; cbn [pages_fetched];
      rewrite ?(right_id_L [] (++)); apply scrape_page_pages.
  - apply scrape_page_pages.
Qed.

(** The pages requested by the loop, from any state on. *)
Lemma while_loop_env_pages fuel st :
  let e := fst (snd (while_loop_env fuel st)) in
  let st' := snd (snd (while_loop_env fuel st)) in
  pages_fetched (fst (while_loop_env fuel st)) =
    concat ((λ p, replicate (attempts_made (fst (scrape_page p))) p) <$>
              seqZ (page st) (page st' - page st + requested_ahead e)).
Proof.
  cbn zeta.
  apply (while_loop_env_ind (λ st evs e st',
    page st ≤ page st'
    ∧ pages_fetched evs =
        concat ((λ p, replicate (attempts_made (fst (scrape_page p))) p) <$>
                  seqZ (page st) (page st' - page st + requested_ahead e)))).
  - intros st0. split; [lia|]. cbn [requested_ahead]. rewrite seqZ_nil by lia. reflexivity.
  - intros st0 _. split; [lia|]. cbn [requested_ahead]. rewrite seqZ_nil by lia. reflexivity.
  - intros st0 evs o e st' _ Hbody.
    pose proof (loop_body_pages st0) as Hpages. rewrite Hbody in Hpages. cbn [fst] in Hpages.
    rewrite Hpages.
    apply loop_body_cases in Hbody
      as [(sig & _ & _ & H & ->)|[(cars & _ & _ & _ & _ & _ & H & ->)
                                  |(cars & _ & _ & _ & H & ->)]].
    + injection H as -> ->. split; [lia|]. cbn [requested_ahead].
      replace (page st0 - page st0 + 1) with 1 by lia. rewrite seqZ_one.
      cbn [fmap list_fmap concat]. rewrite (right_id_L [] (++)). reflexivity.
    + injection H as -> ->. cbn [stalled page requested_ahead]. split; [lia|].
      replace (page st0 - page st0 + 1) with 1 by lia. rewrite seqZ_one.
      cbn [fmap list_fmap concat]. rewrite (right_id_L [] (++)). reflexivity.
    + destruct (sleep_raises (page st0)) as [k|]; [|discriminate H]. injection H as -> ->.
      rewrite next_state_page. cbn [requested_ahead]. split; [lia|].
      replace (page st0 + 1 - page st0 + 0) with 1 by lia. rewrite seqZ_one.
      cbn [fmap list_fmap concat]. rewrite (right_id_L [] (++)). reflexivity.
  - intros st0 evs st' evs' e' st'' _ Hbody [Hmono IH].
    pose proof (loop_body_pages st0) as Hpages. rewrite Hbody in Hpages. cbn [fst] in Hpages.
    apply loop_body_cases in Hbody
      as [(sig & _ & _ & H & _)|[(cars & _ & _ & _ & _ & _ & H & _)
                                 |(cars & _ & _ & _ & _ & ->)]];
      try discriminate H.
    rewrite next_state_page in *. split; [lia|].
    assert (Hpos : 0 ≤ requested_ahead e') by (destruct e' as [| |[] ?]; cbn; lia).
    rewrite pages_fetched_app, Hpages, IH, (seqZ_cons (page st0)) by lia.
    cbn [fmap list_fmap concat]. f_equal. f_equal. f_equal. f_equal. lia.
Qed.







Lemma csv_written_all cars :
  (∀ c, c ∈ cars → row_encodable (csv_row c) = true) →
  csv_written cars = fieldnames :: (csv_row <$> cars)
  ∧ snd (writerows (rows_of cars)) = false.
Proof.
  intros Hok. unfold csv_written, rows_of.
  rewrite writerows_all; [split; reflexivity|].
  induction cars as [|c cars IH]; [reflexivity|].
  rewrite fmap_cons. cbn [forallb]. rewrite (Hok c) by apply list_elem_of_here.
  apply IH. intros c' Hc'. apply Hok, list_elem_of_further, Hc'.
Qed.



Lemma main_env_finishes : run_end main_env ≠ StillRunning.
Proof.
  rewrite main_env_unfold. cbn [run_end].
  apply while_loop_env_finishes; unfold main_fuel, MAX_PAGES, initial; cbn [page]; lia.
Qed.


(** Where a run stands when it ends. *)
Lemma main_env_end :
  let r := main_env in
  1 ≤ page (run_state r) ≤ MAX_PAGES + 1
  ∧ 0 ≤ page (run_state r) - 1 + collected_ahead (run_end r) ≤ MAX_PAGES
  ∧ 0 ≤ page (run_state r) - 1 + requested_ahead (run_end r) ≤ MAX_PAGES
  ∧ all_cars (run_state r) =
      concat (returned <$> seqZ 1 (page (run_state r) - 1 + collected_ahead (run_end r)))
  ∧ left_as (run_end r) (run_state r)
  ∧ (∀ p, 1 ≤ p < page (run_state r) → ∃ cars, snd (scrape_page p) = Returns cars).
Proof.
  cbn zeta. pose proof main_env_finishes as Hfin. revert Hfin.
  rewrite main_env_unfold. cbn [run_end run_state]. intros Hfin.
  pose proof (while_loop_env_end main_fuel initial) as (Hmono & Hleft & Hmax & _ & Hall).
  pose proof (while_loop_env_all_cars main_fuel initial) as [_ Hcars].
  cbn [initial page all_cars app] in *.
  specialize (Hmax ltac:(unfold MAX_PAGES; lia)).
  split; [lia|].
  assert (Hahead : page (snd (snd (while_loop_env main_fuel initial))) - 1
                   + requested_ahead (fst (snd (while_loop_env main_fuel initial)))
                   ≤ MAX_PAGES
                   ∧ 0 ≤ collected_ahead (fst (snd (while_loop_env main_fuel initial)))
                       ≤ requested_ahead (fst (snd (while_loop_env main_fuel initial)))).
  { destruct (fst (snd (while_loop_env main_fuel initial))) as [| |[] k];
      cbn [left_as collected_ahead requested_ahead] in *; lia. }
  split; [lia|]. split; [lia|]. split; [exact Hcars|]. split; [exact Hleft | exact Hall].
Qed.







(** X15.  A run requests the pages in increasing order from page 1 on, each
    page in one go of one to five requests, never a page again once it has
    moved on, and never a page beyond 2000: the pages of its GET requests are
    page 1 as many times as its scrape made requests, then page 2 likewise,
    and so on up to a last page, which is the page at which the counter
    stands or the one before. *)
Theorem pages_are_fetched_in_order :
  ∃ last_page,
    0 ≤ last_page ≤ MAX_PAGES
    ∧ page (run_state main_env) - 1 ≤ last_page ≤ page (run_state main_env)
    ∧ pages_fetched (run_trace main_env) =
        concat ((λ p, replicate (attempts_made (fst (scrape_page p))) p) <$>
                  seqZ 1 last_page)
    ∧ ∀ p, (1 ≤ attempts_made (fst (scrape_page p)) ≤ 5)%nat.
Proof.
  destruct main_env_end as (_ & _ & Hn & _).
  exists (page (run_state main_env) - 1 + requested_ahead (run_end main_env)).
  split; [exact Hn|]. split; [|split].
  - destruct (run_end main_env) as [| |[] ?]; cbn [requested_ahead]; lia.
  - rewrite main_env_unfold. cbn [run_trace run_state run_end].
    rewrite pages_fetched_app, finalize_env_no_get, (right_id_L [] (++)).
    pose proof (while_loop_env_pages main_fuel initial) as H. cbn zeta in H.
    rewrite H. cbn [initial page]. reflexivity.
  - intros p. apply scrape_page_bounds.
Qed.

(** ** The two drivers *)

Lemma checkpoint_env_quiet st cars :
  (∀ c, c ∈ all_cars st ++ cars → row_encodable (csv_row c) = true) →
  checkpoint_env st cars = (checkpoint st cars, false).
Proof.
  intros Hok. unfold checkpoint_env, checkpoint. destruct cars as [|c cars]; [reflexivity|].
  destruct (page st mod SAVE_INTERVAL =? 0); [|reflexivity].
  rewrite save_to_csv_utf8_unfold. destruct (csv_written_all _ Hok) as [-> ->]. reflexivity.
Qed.

(** When no sleep is disturbed and every record can be encoded, the loop in
    its environment does what the loop of [main] does. *)
Lemma while_loop_env_agrees fuel : ∀ st,
  (∀ p, sleep_raises p = None) →
  (∀ p c, c ∈ returned p → row_encodable (csv_row c) = true) →
  (∀ c, c ∈ all_cars st → row_encodable (csv_row c) = true) →
  fst (while_loop_env fuel st) = fst (while_loop fuel st)
  ∧ snd (snd (while_loop_env fuel st)) = snd (snd (while_loop fuel st))
  ∧ fst (snd (while_loop fuel st)) =
      match fst (snd (while_loop_env fuel st)) with
      | StillRunning => RUNNING
      | LoopDone => DONE
      | LoopRaised _ IsKeyboardInterrupt => INTERRUPTED
      | LoopRaised _ _ => ERRORED
      end
  ∧ passing (fst (snd (while_loop_env fuel st))) = None
  ∧ (∀ c, c ∈ all_cars (snd (snd (while_loop_env fuel st))) →
          row_encodable (csv_row c) = true).
Proof.
  induction fuel as [|fuel IH]; intros st Hsleep Hpages Hcars.
  - cbn [while_loop_env while_loop fst snd passing]. repeat split. exact Hcars.
  - rewrite while_loop_unfold. cbn [while_loop_env].
    destruct (page st <=? MAX_PAGES);
      [|cbn [fst snd passing]; repeat split; exact Hcars].
    rewrite loop_body_unfold.
    destruct (snd (scrape_page (page st))) as [cars|sig] eqn:Hr.
    + assert (Hall : ∀ c, c ∈ all_cars st ++ cars → row_encodable (csv_row c) = true).
      { intros c Hc. apply elem_of_app in Hc as [Hc|Hc]; [apply Hcars, Hc|].
        apply (Hpages (page st)). rewrite (returned_eq _ _ Hr). exact Hc. }
      rewrite (checkpoint_env_quiet st cars Hall), Hsleep.
      cbn [fst snd fmap option_fmap option_map].
      destruct (IH (next_state st cars) Hsleep Hpages) as (Hevs & Hst & Hend & Hpass & Hok).
      { rewrite next_state_all_cars. exact Hall. }
      destruct (while_loop_env fuel (next_state st cars)) as [evs' [e' st'']].
      cbn [fst snd] in *. rewrite <- Hevs, <- Hst, Hend.
      rewrite <- !(assoc_L (++)). cbn [app].
      split; [reflexivity|]. split; [reflexivity|]. split; [reflexivity|].
      split; [exact Hpass | exact Hok].
    + cbn [fst snd passing]. split; [reflexivity|]. split; [reflexivity|].
      split; [destruct sig; reflexivity|]. split; [destruct sig; reflexivity | exact Hcars].
Qed.

(** In such an environment a run is a run of [main], and nothing leaves
    it. *)
Lemma main_env_agrees :
  (∀ p, sleep_raises p = None) →
  (∀ p c, c ∈ returned p → row_encodable (csv_row c) = true) →
  run_trace main_env = fst main
  ∧ run_state main_env = snd (snd main)
  ∧ run_leaves main_env = None.
Proof.
  intros Hsleep Hpages. rewrite main_env_unfold, main_unfold.
  cbn [run_trace run_state run_leaves fst snd].
  destruct (while_loop_env_agrees main_fuel initial Hsleep Hpages)
    as (Hevs & Hst & _ & Hpass & Hok).
  { intros c Hc. inversion Hc. }
  rewrite Hpass, <- Hevs, <- Hst.
  set (cars := all_cars (snd (snd (while_loop_env main_fuel initial)))) in *.
  rewrite finalize_env_unfold. unfold finalize, save_to_csv.
  destruct (csv_written_all cars Hok) as [Hwritten Hfine].
  destruct cars as [|c cars']; [repeat split|].
  cbn [fst snd]. rewrite Hwritten, Hfine. repeat split.
Qed.

End Scraper.

(** ** Checks on concrete inputs *)

Example split_leftmost : Py.split " . " "a . b .  . c . " = ["a"; "b"; ""; "c"; ""].
Proof. vm_compute. reflexivity. Qed.

Example strip_both_ends : Py.strip "  1300 cc   " = "1300 cc".
Proof. vm_compute. reflexivity. Qed.

Example title_words : Py.title "new york 3rd" = "New York 3Rd".
Proof. vm_compute. reflexivity. Qed.

Example city_priority :
  extract_city_from_description "Lahore registered, now in KARACHI" = "Karachi".
Proof. vm_compute. reflexivity. Qed.

Example grouped_ints :
  Fmt.int_grouped 1250000 = "1,250,000"
  ∧ Fmt.int_grouped (-1234567) = "-1,234,567"
  ∧ Fmt.int_grouped 999 = "999"
  ∧ Fmt.int_grouped 1000 = "1,000".
Proof. vm_compute. repeat split. Qed.

Example repr_of_values :
  Fmt.repr (VList [VStr "it's"; VNone; VInt (-3); VDict [("k", VBool true)]]) =
    "[" +:+ String Fmt.dquote "it's" +:+ String Fmt.dquote ", None, -3, {'k': True}]".
Proof. vm_compute. reflexivity. Qed.

Example extract_sample_page :
  extract sample_loads sample_body = Ok [corolla].
Proof. vm_compute. reflexivity. Qed.

(** A bool is an int for [isinstance]: it is formatted as a number. *)
Example bool_price :
  ∃ c, extract_listing sample_loads token_listing = Ok (Some c) ∧ price c = "PKR 1".
Proof. eexists. split; vm_compute; reflexivity. Qed.

(** A block that decodes to something else than an object is not skipped:
    [data.get] raises and the page returns nothing. *)
Example array_block_empties_page :
  extract sample_loads [corolla_listing; array_listing] = Raise AttributeError
  ∧ cars_of_response sample_loads [corolla_listing; array_listing] = [].
Proof. vm_compute. split; reflexivity. Qed.

Example run_interrupted :
  snd (main sample_loads interrupted_get) =
    (INTERRUPTED, {| page := 3; consecutive_empty := 0; all_cars := [corolla; corolla] |}).
Proof. vm_compute. reflexivity. Qed.

Example run_errored :
  main sample_loads failing_get = ([EvGet 1 20], (ERRORED, initial)).
Proof. vm_compute. reflexivity. Qed.

Example run_done :
  snd (main sample_loads dead_get) =
    (DONE, {| page := 2001; consecutive_empty := 2000; all_cars := [] |}).
Proof. vm_compute. reflexivity. Qed.

(** C4 as stated fails: a text without the delimiter is not assigned whole
    when it has surrounding whitespace. *)
Lemma parse_engine_specs_whole_string_fails :
  ¬ (∀ s, ¬ substring_of " . " s → parse_engine_specs s = (s, "", "")).
Proof.
  intros H. specialize (H " Petrol").
  assert (Hno : ¬ substring_of " . " " Petrol").
  { intros Hsub. apply contains_spec in Hsub. vm_compute in Hsub. discriminate. }
  specialize (H Hno). vm_compute in H. discriminate.
Qed.

Lemma parse_engine_specs_positional_witness :
  snd (parse_engine_specs "Petrol . 1300 cc") = ""
  ∧ parse_engine_specs "  Diesel " = ("Diesel", "", "").
Proof.
  destruct parse_engine_specs_positional as (_ & _ & H3 & _ & H5). split.
  - apply H3. vm_compute. lia.
  - apply (H5 "  Diesel ").
    intros Hsub. apply contains_spec in Hsub. vm_compute in Hsub. discriminate.
Defined.

Lemma extract_city_first_match_witness :
  extract_city_from_description "Family car, LAHORE registered" = "Lahore"
  ∧ extract_city_from_description "Imported, first owner" = ""
  ∧ extract_city_from_description (Py.upper "Family car, LAHORE registered") =
      extract_city_from_description "Family car, LAHORE registered".
Proof.
  destruct (extract_city_first_match "Family car, LAHORE registered") as (H1 & _ & _ & _ & H5).
  destruct (extract_city_first_match "Imported, first owner") as (_ & H2 & _).
  split; [|split].
  - apply (H1 ["karachi"] "lahore"
      ["islamabad"; "rawalpindi"; "faisalabad"; "multan"; "peshawar"; "quetta";
       "sialkot"; "gujranwala"; "hyderabad"; "bahawalpur"]).
    + reflexivity.
    + apply contains_spec. vm_compute. reflexivity.
    + intros c' Hin Hsub. apply contains_spec in Hsub.
      apply list_elem_of_singleton in Hin. subst c'. vm_compute in Hsub. discriminate.
  - apply H2.
    assert (HF : Forall (λ c, Py.contains c (Py.lower "Imported, first owner") = false) cities)
      by (repeat constructor).
    intros c Hin Hsub. apply contains_spec in Hsub.
    rewrite Forall_forall in HF. rewrite (HF c Hin) in Hsub. discriminate.
  - apply H5. vm_compute. reflexivity.
Defined.


Lemma scrape_page_retries_witness :
  scrape_page sample_loads flaky_get 7 = (five_attempts 7, Returns [corolla])
  ∧ scrape_page sample_loads dead_get 7 = (five_attempts 7, Returns []).
Proof.
  split.
  - destruct (scrape_page_retries sample_loads flaky_get 7) as (H & _).
    rewrite (H sample_body).
    + vm_compute. reflexivity.
    + intros i Hi. left. unfold flaky_get.
      destruct (i <? 4) eqn:E; [reflexivity | apply Z.ltb_ge in E; lia].
    + reflexivity.
  - destruct (scrape_page_retries sample_loads dead_get 7) as (_ & H & _).
    apply H. intros i Hi. right. reflexivity.
Defined.

(** C8 as stated fails: the sleep that ends an iteration on a page with
    records is not longer than the one that ends an iteration on a page
    without. *)
Lemma page_sleep_not_longer :
  fst (while_loop sample_loads steady_get 1 initial) = [EvGet 1 20; EvSleep (3 # 2)]
  ∧ fst (while_loop sample_loads empty_get 1 initial) = [EvGet 1 20; EvSleep (inject_Z 2)]
  ∧ ¬ (inject_Z 2 < 3 # 2)%Q
  ∧ ¬ (page_sleep [] < page_sleep [corolla])%Q.
Proof.
  split; [vm_compute; reflexivity|]. split; [vm_compute; reflexivity|].
  split; vm_compute; intros H; discriminate H.
Qed.

Lemma missing_structured_data_skipped_witness :
  extract_listing sample_loads broken_listing = Ok None
  ∧ extract sample_loads [broken_listing; corolla_listing] =
      extract sample_loads [corolla_listing].
Proof.
  destruct (missing_structured_data_skipped sample_loads broken_listing) as [H1 H2].
  - right. exists {| script_string := Some "{oops" |}. split; [reflexivity|].
    right. right. exists "{oops". split; reflexivity.
  - split; [exact H1|]. apply (H2 [] [corolla_listing]).
Defined.

Lemma last_spec_item_wins_witness : mileage corolla = "85,000 km".
Proof.
  apply (last_spec_item_wins sample_loads corolla_listing corolla Mileage
           [ {| icon := mileage_icon; text := "90,000 km" |};
             {| icon := engine_icon; text := "Petrol . 1300 cc . Automatic" |} ]
           {| icon := mileage_icon; text := "85,000 km" |} []).
  - vm_compute. reflexivity.
  - reflexivity.
  - vm_compute. reflexivity.
  - intros x Hx. inversion Hx.
Defined.

Lemma page_sleep_after_iteration_witness :
  (page_sleep [corolla] < page_sleep [])%Q
  ∧ page_sleep [] = inject_Z 2.
Proof.
  destruct (page_sleep_after_iteration sample_loads steady_get 0 initial [corolla])
    as (_ & _ & H1 & _).
  { vm_compute. intros H. discriminate H. }
  { vm_compute. reflexivity. }
  destruct (page_sleep_after_iteration sample_loads dead_get 0 initial [])
    as (_ & _ & _ & H2).
  { vm_compute. intros H. discriminate H. }
  { vm_compute. reflexivity. }
  split; [apply H1; discriminate | apply H2; reflexivity].
Defined.

(** A timeout, then an exception that is not a request error. *)
Lemma scrape_page_stops_at_first_final_outcome_witness :
  scrape_page sample_loads
    (λ page attempt, if attempt <? 1 then RaisesTimeout else RaisesException) 7 =
    ([EvGet 7 20; EvSleep (inject_Z (2 * 2 ^ 0)); EvGet 7 30], Returns []).
Proof.
  destruct (scrape_page_stops_at_first_final_outcome sample_loads
              (λ page attempt, if attempt <? 1 then RaisesTimeout else RaisesException)
              7 1) as (H & _).
  - lia.
  - intros i Hi. replace i with 0 by lia. left. reflexivity.
  - left. intros [H|H]; discriminate H.
  - exact H.
Defined.

Lemma one_raising_listing_empties_page_witness :
  scrape_page sample_loads mixed_get 1 = ([EvGet 1 20], Returns []).
Proof.
  destruct (one_raising_listing_empties_page sample_loads mixed_get
              [corolla_listing; array_listing] array_listing AttributeError) as [_ H].
  - apply list_elem_of_further, list_elem_of_here.
  - vm_compute. reflexivity.
  - apply H. reflexivity.
Defined.

Lemma extract_in_listing_order_witness :
  extract sample_loads ([broken_listing; corolla_listing] ++ [corolla_listing]) =
    Ok ([corolla] ++ [corolla]).
Proof.
  apply (extract_in_listing_order sample_loads
           [broken_listing; corolla_listing] [corolla_listing] [corolla] [corolla]);
    vm_compute; reflexivity.
Defined.

Lemma decoded_block_record_or_raise_witness :
  extract_listing sample_loads array_listing = Raise AttributeError
  ∧ ∃ c, extract_listing sample_loads corolla_listing = Ok (Some c).
Proof.
  split.
  - destruct (decoded_block_record_or_raise sample_loads array_listing "[]" (VList []))
      as (_ & H & _); [reflexivity | discriminate | reflexivity |].
    apply H. reflexivity.
  - destruct (decoded_block_record_or_raise sample_loads corolla_listing "corolla"
                corolla_data) as (H & _); [reflexivity | discriminate | reflexivity |].
    apply H. reflexivity.
Defined.

Lemma fields_depend_on_own_kind_witness :
  car_fields Mileage corolla =
    specs_fields Mileage
      (read_specs (Some (filter (λ x, classify x = Some Mileage) sample_specs))).
Proof.
  apply (fields_depend_on_own_kind sample_loads corolla_listing corolla Mileage sample_specs).
  - vm_compute. reflexivity.
  - reflexivity.
Defined.

Lemma missing_kind_leaves_fields_empty_witness :
  Forall (λ field, field = "") (car_fields Color corolla).
Proof.
  apply (missing_kind_leaves_fields_empty sample_loads corolla_listing corolla Color).
  - vm_compute. reflexivity.
  - intros items x Hitems Hx. injection Hitems as <-.
    assert (HF : Forall (λ x, classify x ≠ Some Color) sample_specs)
      by (repeat constructor; intros H; vm_compute in H; discriminate H).
    rewrite Forall_forall in HF. apply HF, Hx.
Defined.

Lemma stripped_fields_are_trimmed_witness :
  outer_space (title corolla) = false
  ∧ Py.strip "1300 cc" = "1300 cc".
Proof.
  destruct (stripped_fields_are_trimmed sample_loads) as (_ & H & Hfix). split.
  - apply (H corolla_listing corolla). vm_compute. reflexivity.
  - apply Hfix. vm_compute. reflexivity.
Defined.

Lemma year_column_witness : year corolla = VStr (pretty 2015).
Proof.
  assert (H : extract_listing sample_loads corolla_listing = Ok (Some corolla))
    by (vm_compute; reflexivity).
  destruct (year_column sample_loads corolla_listing corolla H)
    as (s & items & Hld & Hloads & _ & Hint & _).
  injection Hld as <-. injection Hloads as <-.
  apply Hint. reflexivity.
Defined.

Lemma int_price_reads_back_witness :
  price corolla = "PKR" +:+ " " +:+ Fmt.int_grouped 1250000
  ∧ without_commas (Fmt.int_grouped 1250000) = pretty 1250000.
Proof.
  destruct (int_price_reads_back sample_loads corolla_listing corolla "corolla"
              [ ("name", VStr " Toyota Corolla 2015 ");
                ("description", VStr "Used Toyota Corolla for sale in LAHORE");
                ("modelDate", VInt 2015);
                ("offers", VDict [ ("price", VInt 1250000);
                                   ("url", VStr "https://www.pakwheels.com/used-cars/1") ]) ]
              [ ("price", VInt 1250000);
                ("url", VStr "https://www.pakwheels.com/used-cars/1") ]
              1250000) as (H1 & H2 & _); try reflexivity.
  split; [exact H1 | exact H2].
Defined.

Lemma no_file_overwritten_with_other_rows_witness :
  csv_of [corolla; corolla] = fieldnames :: (csv_row <$> [corolla; corolla]).
Proof.
  destruct (no_file_overwritten_with_other_rows sample_loads interrupted_get) as (H & _).
  apply (H final_file);
    rewrite <- saves_elem_of; vm_compute; apply list_elem_of_here.
Defined.

Lemma files_are_prefixes_of_the_collection_witness :
  Forall (λ row, length row = 11%nat) (csv_of [corolla; corolla]).
Proof.
  destruct (files_are_prefixes_of_the_collection sample_loads interrupted_get
              final_file (csv_of [corolla; corolla])) as (H & _).
  - rewrite <- saves_elem_of. vm_compute. apply list_elem_of_here.
  - exact H.
Defined.

Lemma engine_specs_round_trip_witness :
  parse_engine_specs ("Petrol" +:+ " . " +:+ "1300 cc" +:+ " . " +:+ "Automatic") =
    ("Petrol", "1300 cc", "Automatic").
Proof.
  apply engine_specs_round_trip; try (vm_compute; reflexivity);
    intros H; apply contains_spec in H; vm_compute in H; discriminate H.
Defined.





(** Ctrl-C in the sleep that follows page 2: the loop is left with the page
    counter at 3, past the last page scraped, and both records are saved. *)
Example interrupted_in_the_sleep :
  let r := main_env sample_loads steady_get interrupt_after_page_2 in
  run_end r = LoopRaised FromSleep IsKeyboardInterrupt
  ∧ page (run_state r) = 3
  ∧ pages_fetched (run_trace r) = [1; 2]
  ∧ all_cars (run_state r) = [corolla; corolla]
  ∧ written_to final_file (run_trace r) = [fieldnames :: (csv_row <$> [corolla; corolla])]
  ∧ run_leaves r = None.
Proof. vm_compute. repeat split. Qed.

(** [SystemExit] in the sleep that follows page 1 passes both [except]
    clauses: the final file is written and the exception leaves [main]. *)
Example system_exit_passes :
  let r := main_env sample_loads steady_get exit_after_page_1 in
  run_end r = LoopRaised FromSleep IsSystemExit
  ∧ page (run_state r) = 2
  ∧ written_to final_file (run_trace r) = [fieldnames :: (csv_row <$> [corolla])]
  ∧ run_leaves r = Some IsSystemExit.
Proof. vm_compute. repeat split. Qed.

(** The bytes of a surrogate cannot be encoded; text without them can. *)
Example surrogate_is_not_encodable :
  utf8_encodable lone_surrogate = false
  ∧ utf8_encodable "Honda Civic" = true
  ∧ row_encodable (csv_row civic) = false
  ∧ row_encodable (csv_row corolla) = true
  ∧ extract sample_loads_env [civic_listing] = Ok [civic].
Proof. vm_compute. repeat split. Qed.
